(** * Detection post-processing of the YOLOv8 / CoreML conversion scripts

    A shallow embedding of the geometric code of the repository:

    - the Colab inference script: [resize_bicubic_max_side] (defined twice,
      in two notebook cells), [iou], [deduplicate_boxes] and the per-image
      inference loop that draws with [cv2.rectangle];
    - the Xcode pipeline: [resizedDownwardLetterboxedWithMetadata] and
      [drawDetections].

    Numbers.  Pixel coordinates and image sizes are Python [int]s and Swift
    [Int]s: they are [Z] here.  Scales, offsets, areas and thresholds are
    Python [float]s and Swift [CGFloat]s: they are exact rationals [Q] here,
    so the development speaks about the arithmetic the code writes down and
    not about binary64 rounding.  The one place where rounding decides an
    integer result, the truncated size of a resized image, is modelled a
    second time in binary64 (modules [Binary64], [ResizeCell64],
    [InferenceCell64] and [Swift64]); the exact model can be one pixel above
    the code there. *)

From Stdlib Require Import ZArith QArith Qround Lia SpecFloat.
From stdpp Require Import base list sorting strings gmap.

Local Open Scope Z_scope.

(** ** Numeric helpers *)

(** [a > b] on floats, as a boolean test. *)
Definition Qgtb (a b : Q) : bool := negb (Qle_bool a b).

(** Python's [int(x)] and Swift's [Int(x)] on a float: truncation toward
    zero. *)
Definition int_of (x : Q) : Z := Z.quot (Qnum x) (Zpos (Qden x)).

(** ** Boxes and [shapely] rectangles *)

(** A detection of the Colab script, "Format: (x1, y1, x2, y2, cls)". *)
Record Detection := mkDetection {
  x1 : Z; y1 : Z; x2 : Z; y2 : Z; cls : Z
}.

(** [shapely.geometry.box(minx, miny, maxx, maxy)]: the axis-aligned rectangle
    with the two given corners.  Only its extent on each axis matters for the
    areas the script asks for. *)
Record Rect := mkRect { minx : Z; miny : Z; maxx : Z; maxy : Z }.

(** The rectangle built from [boxA[:4]], the first four components, whatever
    the fifth. *)
Definition shapely_box (d : Detection) : Rect :=
  mkRect (x1 d) (y1 d) (x2 d) (y2 d).

Definition lo (a b : Z) : Z := Z.min a b.
Definition hi (a b : Z) : Z := Z.max a b.

(** [r.area] *)
Definition area (r : Rect) : Z :=
  (hi (minx r) (maxx r) - lo (minx r) (maxx r)) *
  (hi (miny r) (maxy r) - lo (miny r) (maxy r)).

(** Length of the overlap of the intervals spanned by [a1,a2] and [b1,b2]. *)
Definition overlap (a1 a2 b1 b2 : Z) : Z :=
  Z.max 0 (Z.min (hi a1 a2) (hi b1 b2) - Z.max (lo a1 a2) (lo b1 b2)).

(** [a.intersection(b).area] *)
Definition intersection_area (a b : Rect) : Z :=
  overlap (minx a) (maxx a) (minx b) (maxx b) *
  overlap (miny a) (maxy a) (miny b) (maxy b).

(** [a.union(b).area] *)
Definition union_area (a b : Rect) : Z :=
  area a + area b - intersection_area a b.

(** ** IoU and greedy de-duplication (Colab script) *)

(** [[
    def iou(boxA, boxB):
        a = shapely_box of boxA[:4]
        b = shapely_box of boxB[:4]
        inter = a.intersection(b).area
        union = a.union(b).area
        return inter / union if union > 0 else 0
    ]] *)
Definition iou (boxA boxB : Detection) : Q :=
  let a := shapely_box boxA in
  let b := shapely_box boxB in
  let inter := intersection_area a b in
  let union := union_area a b in
  if 0 <? union then Qmake inter (Z.to_pos union) else 0%Q.

(** The inner loop of [deduplicate_boxes]: [keep] ends up [False] exactly when
    some already kept box overlaps [box] by more than the threshold. *)
Definition suppressed (iou_thresh : Q) (final_boxes : list Detection)
    (box : Detection) : bool :=
  existsb (fun kept => Qgtb (iou box kept) iou_thresh) final_boxes.

(** One iteration of the outer loop. *)
Definition dedupe_step (iou_thresh : Q) (final_boxes : list Detection)
    (box : Detection) : list Detection :=
  if suppressed iou_thresh final_boxes box then final_boxes
  else final_boxes ++ [box].

(** [[
    def deduplicate_boxes(boxes, iou_thresh=0.6):
        final_boxes = []
        for box in boxes:
            keep = True
            for kept in final_boxes:
                if iou(box, kept) > iou_thresh:
                    keep = False
                    break
            if keep:
                final_boxes.append(box)
        return final_boxes
    ]] *)
Definition deduplicate_boxes (boxes : list Detection) (iou_thresh : Q)
    : list Detection :=
  fold_left (dedupe_step iou_thresh) boxes [].

Definition default_iou_thresh : Q := 6 # 10.


(** [later] is not suppressed by [earlier]: their IoU, computed as the loop
    does with the candidate first, does not exceed the threshold. *)
Definition compatible (iou_thresh : Q) (earlier later : Detection) : Prop :=
  (iou later earlier <= iou_thresh)%Q.

(** *** Arrival positions

    The same loop, run on the boxes paired with their positions in the input
    ([enumerate(boxes)]): the test only looks at the box, the position is
    carried along.  It records which input positions survive. *)
Definition indexed_step (iou_thresh : Q) (final : list (nat * Detection))
    (ib : nat * Detection) : list (nat * Detection) :=
  if suppressed iou_thresh (snd <$> final) (snd ib) then final
  else final ++ [ib].

Definition kept_run (boxes : list Detection) (iou_thresh : Q)
    : list (nat * Detection) :=
  fold_left (indexed_step iou_thresh) (imap pair boxes) [].

Definition kept_positions (boxes : list Detection) (iou_thresh : Q)
    : list nat :=
  fst <$> kept_run boxes iou_thresh.

(** Two recorded entries in arrival order, the later one not suppressed by
    the earlier one. *)
Definition arrival_compatible (iou_thresh : Q) (p q : nat * Detection) : Prop :=
  (fst p < fst q)%nat /\ compatible iou_thresh (snd p) (snd q).

(** Two entries at the same position with the same coordinates. *)
Definition same_geometry (p q : nat * Detection) : Prop :=
  fst p = fst q /\ shapely_box (snd p) = shapely_box (snd q).

(** ** Resizing (Colab script) *)

(** [(int(w * scale), int(h * scale))], the size asked from the resizer, as
    (width, height), with the product taken exactly; the product of the code
    is a binary64 one, see [Binary64.new_size]. *)
Definition new_size (w h : Z) (scale : Q) : Z * Z :=
  (int_of (inject_Z w * scale), int_of (inject_Z h * scale)).

(** Rounding to the nearest integer, as the specification words the resized
    size (ties upward). *)
Definition round_nearest (x : Q) : Z := Qfloor (x + (1 # 2)).

(** [cv2.resize(img, dsize, ...)]: only the shape (rows, columns) of the
    result is modelled; OpenCV raises an error for an empty [dsize]. *)
Definition cv2_resize (dsize : Z * Z) : option (Z * Z) :=
  let '(new_w, new_h) := dsize in
  if (0 <? new_w) && (0 <? new_h) then Some (new_h, new_w) else None.

(** The notebook cell "Resizes downwards but not upwards". *)
Module ResizeCell.

(** [[
    def resize_bicubic_max_side(img, target_size=1600):
        h, w = img.shape[:2]
        max_side = max(h, w)
        if max_side > target_size:
            scale = target_size / max_side
            new_w = int(w * scale)
            new_h = int(h * scale)
            resized_img = cv2.resize(img, (new_w, new_h), ...)
            return resized_img, scale
        else:
            return img, 1.0
    ]]
    The image is represented by its shape [(h, w)]; [None] is a raised
    exception (division by zero, or the error of [cv2.resize]). *)
Definition resize_bicubic_max_side (shape : Z * Z) (target_size : Z)
    : option ((Z * Z) * Q) :=
  let '(h, w) := shape in
  let max_side := Z.max h w in
  if target_size <? max_side then
    if max_side =? 0 then None
    else
      let scale := (inject_Z target_size / inject_Z max_side)%Q in
      match cv2_resize (new_size w h scale) with
      | Some resized_img => Some (resized_img, scale)
      | None => None
      end
  else Some ((h, w), 1%Q).

Definition default_target_size : Z := 1600.

End ResizeCell.

(** The notebook cell "Script for running inference", which defines the
    function again under the same name. *)
Module InferenceCell.

(** [[
    def resize_bicubic_max_side(img, target_size=1280):
        h, w = img.shape[:2]
        scale = target_size / max(h, w)
        resized = cv2.resize(img, (int(w * scale), int(h * scale)), ...)
        return resized, scale
    ]] *)
Definition resize_bicubic_max_side (shape : Z * Z) (target_size : Z)
    : option ((Z * Z) * Q) :=
  let '(h, w) := shape in
  if Z.max h w =? 0 then None
  else
    let scale := (inject_Z target_size / inject_Z (Z.max h w))%Q in
    match cv2_resize (new_size w h scale) with
    | Some resized => Some (resized, scale)
    | None => None
    end.

Definition default_target_size : Z := 1280.

End InferenceCell.

(** ** Resizing and letterboxing (Xcode pipeline) *)

Module Swift.

(** The locals of [resizedDownwardLetterboxedWithMetadata] that describe the
    geometry. *)
Record Geometry := mkGeometry {
  scale : Q; newWidth : Z; newHeight : Z; xOffset : Q; yOffset : Q
}.

(** [[
    let originalWidth = CGFloat(cgImage.width)
    let originalHeight = CGFloat(cgImage.height)
    let maxSide = max(originalWidth, originalHeight)
    let scale = maxSide > CGFloat(targetSize) ? CGFloat(targetSize) / maxSide : 1.0
    let newWidth = Int(originalWidth * scale)
    let newHeight = Int(originalHeight * scale)
    ...
    let xOffset = (CGFloat(targetSize) - CGFloat(newWidth)) / 2.0
    let yOffset = (CGFloat(targetSize) - CGFloat(newHeight)) / 2.0
    ]]
    [None] is the trap of [Int] on the non-finite product that a division
    by a zero [maxSide] leads to. *)
Definition geometry (width height targetSize : Z) : option Geometry :=
  let originalWidth := inject_Z width in
  let originalHeight := inject_Z height in
  let maxSide := inject_Z (Z.max width height) in
  if Qgtb maxSide (inject_Z targetSize) then
    if Z.max width height =? 0 then None
    else
      let scale := (inject_Z targetSize / maxSide)%Q in
      let newWidth := int_of (originalWidth * scale) in
      let newHeight := int_of (originalHeight * scale) in
      Some (mkGeometry scale newWidth newHeight
              ((inject_Z targetSize - inject_Z newWidth) / 2)
              ((inject_Z targetSize - inject_Z newHeight) / 2))
  else
    let scale := 1%Q in
    let newWidth := int_of (originalWidth * scale) in
    let newHeight := int_of (originalHeight * scale) in
    Some (mkGeometry scale newWidth newHeight
            ((inject_Z targetSize - inject_Z newWidth) / 2)
            ((inject_Z targetSize - inject_Z newHeight) / 2)).

(** What the function returns: whether a pixel buffer came with it, the
    scale, the two offsets and the size of the returned image. *)
Record Metadata := mkMetadata {
  pixelBuffer : bool; m_scale : Q; m_xOffset : Q; m_yOffset : Q;
  image_size : Z * Z
}.

(** [resizedDownwardLetterboxedWithMetadata(to: targetSize)].  [cgImage] is
    the size of the bitmap behind the receiver when there is one, [self_size]
    the size of the receiver and [buffer_created] tells whether
    [CVPixelBufferCreate] delivered a buffer. *)
Definition resizedDownwardLetterboxedWithMetadata
    (cgImage : option (Z * Z)) (self_size : Z * Z) (targetSize : Z)
    (buffer_created : bool) : option Metadata :=
  match cgImage with
  | None => Some (mkMetadata false 1 0 0 self_size)
  | Some (width, height) =>
      match geometry width height targetSize with
      | None => None
      | Some g =>
          Some (mkMetadata buffer_created (scale g) (xOffset g) (yOffset g)
                  (targetSize, targetSize))
      end
  end.

Definition default_targetSize : Z := 1600.

End Swift.

(** ** Images held by reference, and drawing *)

(** A pixel is a colour triple; an image buffer is its rows of pixels (a
    [numpy] array of shape (h, w, 3), the bitmap of an [NSImage]). *)
Definition Color : Type := Z * Z * Z.
Definition Pixels : Type := list (list Color).

(** Image objects live in a store and are handled through references: the
    Python names [img] and the Swift [NSImage] values are references. *)
Abbreviation loc := positive.
Abbreviation Store := (gmap positive Pixels).

(** Allocation of a new image object. *)
Definition alloc (sigma : Store) (px : Pixels) : positive * Store :=
  let l := fresh (dom sigma) in (l, <[l := px]> sigma).

(** The fixed palette of the Colab script. *)
Definition colors : list Color :=
  [ (31, 119, 180); (255, 127, 14); (44, 160, 44); (214, 39, 40);
    (148, 103, 189); (140, 86, 75); (227, 119, 194); (127, 127, 127);
    (188, 189, 34) ].

(** [colors[cls % len(colors)]] *)
Definition color_of (cls : Z) : Color :=
  nth (Z.to_nat (cls mod Z.of_nat (length colors))) colors (0, 0, 0).

(** Whether pixel (x, y) lies on the outline of the rectangle with corners
    [pt1] and [pt2] drawn with the given thickness.  The outline is taken as
    the border of the rectangle widened by [thickness / 2] pixels on each
    side; OpenCV's rounding of the outer corners is not reproduced. *)
Definition on_outline (pt1 pt2 : Z * Z) (thickness : Z) (x y : Z) : bool :=
  let r := thickness / 2 in
  let xa := Z.min (fst pt1) (fst pt2) in
  let xb := Z.max (fst pt1) (fst pt2) in
  let ya := Z.min (snd pt1) (snd pt2) in
  let yb := Z.max (snd pt1) (snd pt2) in
  let near a b := (a - r <=? b) && (b <=? a + r) in
  ((near xa x || near xb x) && (ya - r <=? y) && (y <=? yb + r)) ||
  ((near ya y || near yb y) && (xa - r <=? x) && (x <=? xb + r)).

(** [cv2.rectangle(img, pt1, pt2, color, thickness)] on the pixels of [img]:
    the pixels of the outline that fall inside the image take [color], the
    others keep their value. *)
Definition cv2_rectangle (img : Pixels) (pt1 pt2 : Z * Z) (color : Color)
    (thickness : Z) : Pixels :=
  imap (fun y row =>
    imap (fun x c =>
      if on_outline pt1 pt2 thickness (Z.of_nat x) (Z.of_nat y)
      then color else c) row) img.

(** What the detection engine hands back for one box: [box.xyxy[0]], the
    confidence [box.conf] and [box.cls[0]]. *)
Record EngineBox := mkEngineBox {
  xyxy : Q * Q * Q * Q; conf : Q; cls_id : Q
}.

Module Colab.

(** [[
    x1, y1, x2, y2 = map(int, box.xyxy[0])
    cls = int(box.cls[0])
    ]] *)
Definition to_tuple (box : EngineBox) : Detection :=
  let '(a, b, c, d) := xyxy box in
  mkDetection (int_of a) (int_of b) (int_of c) (int_of d)
    (int_of (cls_id box)).

(** The same engine box reported with another confidence. *)
Definition with_conf (c : Q) (box : EngineBox) : EngineBox :=
  mkEngineBox (xyxy box) c (cls_id box).

(** [[
    raw_boxes = []
    for box in results.boxes:
        ...
        raw_boxes.append((x1, y1, x2, y2, cls))
    ]] *)
Definition raw_boxes (results : list EngineBox) : list Detection :=
  fold_left (fun acc box => acc ++ [to_tuple box]) results [].

(** [all_boxes = deduplicate_boxes(raw_boxes, iou_thresh=0.6)] *)
Definition all_boxes (results : list EngineBox) : list Detection :=
  deduplicate_boxes (raw_boxes results) (6 # 10).

(** [[
    for x1, y1, x2, y2, cls in all_boxes:
        color = colors[cls % len(colors)]
        cv2.rectangle(img, (x1, y1), (x2, y2), color, 2)
    ]]
    [cv2.rectangle] writes into the array that [img] refers to. *)
Definition draw_boxes (sigma : Store) (img : loc) (boxes : list Detection)
    : Store :=
  fold_left (fun s d =>
    alter (fun px =>
      cv2_rectangle px (x1 d, y1 d) (x2 d, y2 d) (color_of (cls d)) 2) img s)
    boxes sigma.

(** One iteration of the loop over [image_paths].  [file] is what
    [cv2.imread] finds ([None] when the file cannot be loaded) and [engine]
    stands for the model call on the copy of the image.  The result is the
    reference [img], the array handed to [cv2.imwrite] and the store; an
    unreadable file is skipped. *)
Definition process_image (sigma : Store) (file : option Pixels)
    (engine : Pixels -> list EngineBox) : option (loc * Pixels * Store) :=
  match file with
  | None => None
  | Some px =>
      let '(img, s1) := alloc sigma px in
      let '(copy, s2) := alloc s1 px in
      let results := engine px in
      let s3 := draw_boxes s2 img (all_boxes results) in
      match s3 !! img with
      | Some written => Some (img, written, s3)
      | None => None
      end
  end.

End Colab.

Module SwiftRenderer.

(** The [Detection] of the Xcode pipeline as [drawDetections] uses it: a
    rectangle (x, y, width, height) and a score. *)
Record Detection := mkDetection { rect : Q * Q * Q * Q; score : Q }.

Section Drawing.

(** The rasterisers of AppKit and CoreGraphics are left abstract: drawing an
    image at the origin of the focused image, stroking a rectangle (line width
    2, red at alpha 0.8), and drawing the percentage label at a point. *)
Variable draw_at_zero : Pixels -> Pixels -> Pixels.
Variable stroke : Q * Q * Q * Q -> Pixels -> Pixels.
Variable draw_label : Q -> Q * Q -> Pixels -> Pixels.

(** [NSImage(size: size)]: an empty image of the size of the receiver. *)
Definition new_image (self_px : Pixels) : Pixels :=
  map (map (fun _ => (0, 0, 0))) self_px.

(** The body of the [for detection in detections] loop, on the focused
    image. *)
Definition draw_detection (px : Pixels) (detection : Detection) : Pixels :=
  let '(x, y, w, h) := rect detection in
  draw_label (score detection * 100)%Q (x, (y - 14)%Q)
    (stroke (rect detection) px).

(** [drawDetections(_:)]: the receiver is [self]; the result is the reference
    of the returned image and the store.  [None] stands for a receiver that is
    not a live image. *)
Definition drawDetections (sigma : Store) (self : loc)
    (detections : list Detection) : option (loc * Store) :=
  match sigma !! self with
  | None => None
  | Some self_px =>
      let '(newImage, s1) := alloc sigma (new_image self_px) in
      let s2 := alter (draw_at_zero self_px) newImage s1 in
      let s3 :=
        fold_left (fun s d => alter (fun px => draw_detection px d) newImage s)
          detections s2 in
      Some (newImage, s3)
  end.

End Drawing.

End SwiftRenderer.

(** ** Resizing in binary64

    The exact sizes the resize variants ask for depend on the rounding of the
    two float operations [target / max_side] and [side * scale]: a product
    whose exact value is an integer can come out just below it, and [int]
    then yields one less.  The definitions of this part repeat the resize
    variants with the binary64 arithmetic of Python's [float] and Swift's
    [CGFloat], as specified by the Standard Library (round to nearest, ties
    to even).  Sizes are taken below 2^53, where an [int] converts exactly. *)

Module Binary64.

Definition prec : Z := 53.
Definition emax : Z := 1024.

(** [float(n)], [CGFloat(n)] *)
Definition of_int (n : Z) : spec_float := binary_normalize prec emax n 0 false.

Definition div (x y : spec_float) : spec_float := SFdiv prec emax x y.
Definition mul (x y : spec_float) : spec_float := SFmul prec emax x y.
Definition sub (x y : spec_float) : spec_float := SFsub prec emax x y.

(** [x > y] *)
Definition gtb (x y : spec_float) : bool := SFltb y x.

(** The rational number a finite float stands for (0 for the others). *)
Definition to_Q (x : spec_float) : Q :=
  match x with
  | S754_finite s m e =>
      let n := cond_Zopp s (Zpos m) in
      match e with
      | Z0 => n # 1
      | Zpos p => (n * Z.pow_pos 2 p) # 1
      | Zneg p => n # (Pos.pow 2 p)
      end
  | _ => 0%Q
  end.

(** [int(x)], [Int(x)]: truncation toward zero of a finite float; Python
    raises and Swift traps on an infinity or a NaN ([None]). *)
Definition trunc (x : spec_float) : option Z :=
  match x with
  | S754_zero _ => Some 0
  | S754_finite _ _ _ => Some (int_of (to_Q x))
  | _ => None
  end.

(** [(int(w * scale), int(h * scale))] *)
Definition new_size (w h : Z) (scale : spec_float) : option (Z * Z) :=
  match trunc (mul (of_int w) scale), trunc (mul (of_int h) scale) with
  | Some new_w, Some new_h => Some (new_w, new_h)
  | _, _ => None
  end.

(** The sign bit is clear (or the float is a NaN). *)
Definition sign_clear (x : spec_float) : Prop :=
  match x with
  | S754_zero s | S754_infinity s | S754_finite s _ _ => s = false
  | S754_nan => True
  end.

(** [n] is [int(x)] for a float [x] that is not negative: the largest integer
    not above the value of [x]. *)
Definition truncates (x : spec_float) (n : Z) : Prop :=
  trunc x = Some n /\ (inject_Z n <= to_Q x < inject_Z (n + 1))%Q.

End Binary64.

(** The definition of the resize cell (lines 87-99) in binary64. *)
Module ResizeCell64.

Definition resize_bicubic_max_side (shape : Z * Z) (target_size : Z)
    : option ((Z * Z) * spec_float) :=
  let '(h, w) := shape in
  let max_side := Z.max h w in
  if target_size <? max_side then
    if max_side =? 0 then None
    else
      let scale :=
        Binary64.div (Binary64.of_int target_size) (Binary64.of_int max_side) in
      match Binary64.new_size w h scale with
      | Some dsize =>
          match cv2_resize dsize with
          | Some resized_img => Some (resized_img, scale)
          | None => None
          end
      | None => None
      end
  else Some ((h, w), Binary64.of_int 1).

End ResizeCell64.

(** The definition of the inference cell (lines 104-108) in binary64. *)
Module InferenceCell64.

Definition resize_bicubic_max_side (shape : Z * Z) (target_size : Z)
    : option ((Z * Z) * spec_float) :=
  let '(h, w) := shape in
  if Z.max h w =? 0 then None
  else
    let scale :=
      Binary64.div (Binary64.of_int target_size) (Binary64.of_int (Z.max h w)) in
    match Binary64.new_size w h scale with
    | Some dsize =>
        match cv2_resize dsize with
        | Some resized => Some (resized, scale)
        | None => None
        end
    | None => None
    end.

End InferenceCell64.

(** The geometry of [resizedDownwardLetterboxedWithMetadata] in binary64. *)
Module Swift64.

Record Geometry := mkGeometry {
  scale : spec_float; newWidth : Z; newHeight : Z;
  xOffset : spec_float; yOffset : spec_float
}.

(** Swift's [max(x, y)] is [y >= x ? y : x]. *)
Definition max (x y : spec_float) : spec_float := if SFleb x y then y else x.

Definition geometry (width height targetSize : Z) : option Geometry :=
  let originalWidth := Binary64.of_int width in
  let originalHeight := Binary64.of_int height in
  let maxSide := max originalWidth originalHeight in
  let scale :=
    if Binary64.gtb maxSide (Binary64.of_int targetSize)
    then Binary64.div (Binary64.of_int targetSize) maxSide
    else Binary64.of_int 1 in
  match Binary64.trunc (Binary64.mul originalWidth scale),
        Binary64.trunc (Binary64.mul originalHeight scale) with
  | Some newWidth, Some newHeight =>
      Some (mkGeometry scale newWidth newHeight
              (Binary64.div
                 (Binary64.sub (Binary64.of_int targetSize)
                    (Binary64.of_int newWidth)) (Binary64.of_int 2))
              (Binary64.div
                 (Binary64.sub (Binary64.of_int targetSize)
                    (Binary64.of_int newHeight)) (Binary64.of_int 2)))
  | _, _ => None
  end.

End Swift64.

(** ** Auxiliary notions for the statements *)

(** The detection moved by (dx, dy); the class is kept. *)
Definition translate (dx dy : Z) (d : Detection) : Detection :=
  mkDetection (x1 d + dx) (y1 d + dy) (x2 d + dx) (y2 d + dy) (cls d).

(** The two boxes lie apart along the x axis or along the y axis (they may
    touch). *)
Definition separated (a b : Detection) : Prop :=
  hi (x1 a) (x2 a) <= lo (x1 b) (x2 b) \/ hi (x1 b) (x2 b) <= lo (x1 a) (x2 a) \/
  hi (y1 a) (y2 a) <= lo (y1 b) (y2 b) \/ hi (y1 b) (y2 b) <= lo (y1 a) (y2 a).

(** [px'] has the shape of [px], and each of its pixels is the pixel of [px]
    at the same place or a colour satisfying [P]. *)
Definition painted_from (P : Color -> Prop) (px px' : Pixels) : Prop :=
  Forall2 (Forall2 (fun c c' => c' = c \/ P c')) px px'.

(** ** The model input wrapper (Xcode pipeline) *)

Module YOLOInput.

(** [class YOLOInput: MLFeatureProvider] with its stored property [image], a
    pixel buffer held by reference. *)
Record t := mk { image : loc }.

(** [var featureNames: Set<String> { return ["image"] }] *)
Definition featureNames (self : t) : gset string := {[ "image"%string ]}.

(** [[
    func featureValue(for featureName: String) -> MLFeatureValue? {
        if featureName == "image" {
            return MLFeatureValue(pixelBuffer: image)
        }
        return nil
    }
    ]] *)
Definition featureValue (self : t) (featureName : string) : option loc :=
  if String.eqb featureName "image" then Some (image self) else None.

End YOLOInput.

(** ** The export script [pt2CoreML.py] *)

Module ExportScript.

(** What the surroundings answer: [os.path.exists(model_path)], whether
    [YOLO(model_path)] returns or raises, and whether [model.export(...)]
    raises or returns a truthy or falsy value. *)
Inductive Outcome := Raises | Returns (truthy : bool).
Record Env := mkEnv {
  model_exists : bool; load_model : Outcome; export_model : Outcome
}.

(** The messages the script prints, in the order of the source; the
    consecutive [print] calls of one message (the model details, the notes on
    NMS) are one constructor. *)
Inductive Line :=
  | ModelNotFound | StartingConversion | LoadingModel | ModelLoaded
  | Converting | IncludingNms | NmsDisabled | ExportSuccessful | ExportedAs
  | ReadyForIos | ModelDetails (nms_included : bool) | NmsNotes
  | ExportFailed | ErrorDuringConversion | InstallHint.

(** [include_nms = False] *)
Definition include_nms : bool := false.

(** The run of the script: the lines printed and the exit status (0 when the
    script runs to its end, 1 for [exit(1)]). *)
Definition run (env : Env) : list Line * Z :=
  if negb (model_exists env) then ([ModelNotFound], 1)
  else
    let start := [StartingConversion; LoadingModel] in
    match load_model env with
    | Raises => (start ++ [ErrorDuringConversion; InstallHint], 1)
    | Returns _ =>
        let loaded :=
          start ++ [ModelLoaded; Converting] ++
          (if include_nms then [IncludingNms] else [NmsDisabled]) in
        match export_model env with
        | Raises => (loaded ++ [ErrorDuringConversion; InstallHint], 1)
        | Returns success =>
            if success then
              (loaded ++
               [ExportSuccessful; ExportedAs; ReadyForIos;
                ModelDetails include_nms] ++
               (if negb include_nms then [NmsNotes] else []), 0)
            else (loaded ++ [ExportFailed], 0)
        end
    end.

(** The four messages that report how the run ended. *)
Definition is_report (l : Line) : bool :=
  match l with
  | ModelNotFound | ExportSuccessful | ExportFailed | ErrorDuringConversion =>
      true
  | _ => false
  end.

End ExportScript.

(** * Properties *)

(** ** Comparisons and truncation *)

Lemma Qgtb_false (a b : Q) : Qgtb a b = false <-> (a <= b)%Q.
Proof.
  unfold Qgtb. rewrite negb_false_iff. apply Qle_bool_iff.
Qed.

Lemma Qgtb_true (a b : Q) : Qgtb a b = true <-> (b < a)%Q.
Proof.
  unfold Qgtb. rewrite negb_true_iff. split.
  - intros H. apply Qnot_le_lt. intros Hle.
    apply Qle_bool_iff in Hle. congruence.
  - intros H. destruct (Qle_bool a b) eqn:E; [|reflexivity].
    apply Qle_bool_iff in E. exfalso. exact (Qlt_not_le _ _ H E).
Qed.

(** On a non-negative float, [int] is the floor. *)
Lemma int_of_nonneg (x : Q) : (0 <= x)%Q -> int_of x = Qfloor x.
Proof.
  destruct x as [n d]. unfold Qle, int_of, Qfloor. simpl. intros H.
  apply Z.quot_div_nonneg; lia.
Qed.

Lemma int_of_inject_Z (n : Z) : int_of (inject_Z n) = n.
Proof. unfold int_of, inject_Z. simpl. apply Z.quot_1_r. Qed.

(** ** Areas *)

Lemma overlap_nonneg a1 a2 b1 b2 : 0 <= overlap a1 a2 b1 b2.
Proof. unfold overlap. lia. Qed.

Lemma overlap_le_l a1 a2 b1 b2 :
  overlap a1 a2 b1 b2 <= hi a1 a2 - lo a1 a2.
Proof. unfold overlap, hi, lo. lia. Qed.

Lemma overlap_le_r a1 a2 b1 b2 :
  overlap a1 a2 b1 b2 <= hi b1 b2 - lo b1 b2.
Proof. unfold overlap, hi, lo. lia. Qed.

Lemma overlap_sym a1 a2 b1 b2 : overlap a1 a2 b1 b2 = overlap b1 b2 a1 a2.
Proof. unfold overlap. f_equal. lia. Qed.

Lemma area_nonneg r : 0 <= area r.
Proof. unfold area, hi, lo. apply Z.mul_nonneg_nonneg; lia. Qed.

Lemma intersection_area_nonneg a b : 0 <= intersection_area a b.
Proof.
  unfold intersection_area. apply Z.mul_nonneg_nonneg; apply overlap_nonneg.
Qed.

Lemma intersection_area_le_l a b : intersection_area a b <= area a.
Proof.
  unfold intersection_area, area.
  apply Z.mul_le_mono_nonneg;
    auto using overlap_nonneg, overlap_le_l.
Qed.

Lemma intersection_area_le_r a b : intersection_area a b <= area b.
Proof.
  unfold intersection_area, area.
  apply Z.mul_le_mono_nonneg;
    auto using overlap_nonneg, overlap_le_r.
Qed.

Lemma intersection_area_sym a b : intersection_area a b = intersection_area b a.
Proof.
  unfold intersection_area.
  rewrite (overlap_sym (minx a)), (overlap_sym (miny a)). reflexivity.
Qed.

Lemma union_area_sym a b : union_area a b = union_area b a.
Proof. unfold union_area. rewrite (intersection_area_sym a b). lia. Qed.

(** The union is at least as large as each box and as the intersection. *)
Lemma union_area_bounds a b :
  area a <= union_area a b /\ area b <= union_area a b /\
  intersection_area a b <= union_area a b.
Proof.
  unfold union_area.
  pose proof (intersection_area_le_l a b).
  pose proof (intersection_area_le_r a b).
  pose proof (area_nonneg a). pose proof (area_nonneg b). lia.
Qed.

Lemma union_area_nonneg a b : 0 <= union_area a b.
Proof.
  pose proof (union_area_bounds a b). pose proof (area_nonneg a). lia.
Qed.

(** ** IoU *)

Lemma iou_sym a b : iou a b = iou b a.
Proof.
  unfold iou. cbv zeta.
  rewrite (union_area_sym (shapely_box a)).
  rewrite (intersection_area_sym (shapely_box a)). reflexivity.
Qed.

Lemma iou_nonneg a b : (0 <= iou a b)%Q.
Proof.
  unfold iou. cbv zeta. destruct (0 <? _).
  - unfold Qle. simpl. pose proof (intersection_area_nonneg (shapely_box a) (shapely_box b)). lia.
  - apply Qle_refl.
Qed.

Lemma iou_le_1 a b : (iou a b <= 1)%Q.
Proof.
  unfold iou. cbv zeta. destruct (0 <? _) eqn:E.
  - apply Z.ltb_lt in E. unfold Qle. simpl. rewrite Z2Pos.id by lia.
    pose proof (union_area_bounds (shapely_box a) (shapely_box b)). lia.
  - discriminate.
Qed.

(** ** The de-duplication loop *)

Lemma suppressed_false t final box :
  suppressed t final box = false <->
  Forall (fun kept => compatible t kept box) final.
Proof.
  unfold suppressed, compatible. induction final as [|k final IH]; simpl.
  - split; [constructor | reflexivity].
  - rewrite orb_false_iff, IH, Qgtb_false, Forall_cons. reflexivity.
Qed.

Lemma suppressed_true t final box :
  suppressed t final box = true <->
  exists kept, kept ∈ final /\ (t < iou box kept)%Q.
Proof.
  unfold suppressed. rewrite existsb_exists. split.
  - intros (k & Hin & Hk). exists k. split.
    + apply list_elem_of_In, Hin.
    + apply Qgtb_true, Hk.
  - intros (k & Hin & Hk). exists k. split.
    + apply list_elem_of_In, Hin.
    + apply Qgtb_true, Hk.
Qed.

Lemma deduplicate_boxes_snoc xs x t :
  deduplicate_boxes (xs ++ [x]) t = dedupe_step t (deduplicate_boxes xs t) x.
Proof. unfold deduplicate_boxes. rewrite fold_left_app. reflexivity. Qed.

Lemma StronglySorted_snoc {A} (R : relation A) l x :
  StronglySorted R (l ++ [x]) <-> StronglySorted R l /\ Forall (fun y => R y x) l.
Proof.
  rewrite StronglySorted_app, Forall_forall. split.
  - intros (H & Hl & _). split; [exact Hl|]. intros y Hy. apply H; [exact Hy|].
    apply list_elem_of_singleton. reflexivity.
  - intros (Hl & H). split; [|split; [exact Hl|]].
    + intros y1 y2 Hy1 Hy2. apply list_elem_of_singleton in Hy2. subst y2. auto.
    + repeat constructor.
Qed.

(** Every kept box is compatible with all the boxes kept before it. *)
Lemma deduplicate_boxes_pairwise xs t :
  StronglySorted (compatible t) (deduplicate_boxes xs t).
Proof.
  induction xs as [|x xs IH] using rev_ind.
  - constructor.
  - rewrite deduplicate_boxes_snoc. unfold dedupe_step.
    destruct (suppressed t (deduplicate_boxes xs t) x) eqn:E; [exact IH|].
    apply StronglySorted_snoc. split; [exact IH|].
    apply suppressed_false, E.
Qed.

(** A list whose boxes are pairwise compatible is left as it is. *)
Lemma deduplicate_boxes_fixed xs t :
  StronglySorted (compatible t) xs -> deduplicate_boxes xs t = xs.
Proof.
  induction xs as [|x xs IH] using rev_ind; intros H.
  - reflexivity.
  - apply StronglySorted_snoc in H. destruct H as [Hxs Hx].
    rewrite deduplicate_boxes_snoc, (IH Hxs). unfold dedupe_step.
    apply suppressed_false in Hx. rewrite Hx. reflexivity.
Qed.

Lemma deduplicate_boxes_sublist xs t : deduplicate_boxes xs t `sublist_of` xs.
Proof.
  induction xs as [|x xs IH] using rev_ind.
  - constructor.
  - rewrite deduplicate_boxes_snoc. unfold dedupe_step.
    destruct (suppressed _ _ _).
    + apply sublist_inserts_r, IH.
    + apply sublist_app; [exact IH | reflexivity].
Qed.

Lemma pairwise_compatible xs t :
  (forall (i j : nat) a b, (i < j)%nat -> xs !! i = Some a -> xs !! j = Some b ->
     (iou a b <= t)%Q) ->
  StronglySorted (compatible t) xs.
Proof.
  induction xs as [|x xs IH]; intros H; constructor.
  - apply IH. intros i j a b Hij Hi Hj. apply (H (S i) (S j)); [lia|exact Hi|exact Hj].
  - apply Forall_forall. intros y Hy.
    apply list_elem_of_lookup in Hy. destruct Hy as [j Hj].
    unfold compatible. rewrite iou_sym.
    apply (H O (S j)); [lia|reflexivity|exact Hj].
Qed.

(** C4.  De-duplication is conservative: the output is never longer than the
    input; when every pairwise IoU among the input detections is at most the
    threshold the output is the input itself, same elements in the same order;
    and the empty list gives the empty list. *)
Theorem dedupe_conservative (xs : list Detection) (t : Q) :
  (length (deduplicate_boxes xs t) <= length xs)%nat /\
  ((forall (i j : nat) a b, (i < j)%nat -> xs !! i = Some a -> xs !! j = Some b ->
      (iou a b <= t)%Q) ->
   deduplicate_boxes xs t = xs) /\
  deduplicate_boxes [] t = [].
Proof.
  split; [|split].
  - apply sublist_length, deduplicate_boxes_sublist.
  - intros H. apply deduplicate_boxes_fixed, pairwise_compatible, H.
  - reflexivity.
Qed.

(** Scenario C of the specification: two disjoint boxes both survive. *)
Lemma dedupe_conservative_witness :
  deduplicate_boxes
    [mkDetection 0 0 50 50 1; mkDetection 200 200 250 250 1] (6 # 10) =
    [mkDetection 0 0 50 50 1; mkDetection 200 200 250 250 1].
Proof.
  apply (dedupe_conservative
           [mkDetection 0 0 50 50 1; mkDetection 200 200 250 250 1] (6 # 10)).
  intros i j a b Hij Hi Hj.
  destruct i as [|[|i]]; destruct j as [|[|j]]; simpl in Hi, Hj;
    try discriminate; try lia.
  injection Hi as <-. injection Hj as <-. vm_compute. discriminate.
Defined.

(** C10.  De-duplication is idempotent: a second pass over the output of a
    first pass, with the same threshold, changes nothing. *)
Theorem dedupe_idempotent (xs : list Detection) (t : Q) :
  deduplicate_boxes (deduplicate_boxes xs t) t = deduplicate_boxes xs t.
Proof. apply deduplicate_boxes_fixed, deduplicate_boxes_pairwise. Qed.

(** ** Which positions survive *)

Lemma kept_run_snoc xs x t :
  kept_run (xs ++ [x]) t = indexed_step t (kept_run xs t) (length xs, x).
Proof.
  unfold kept_run. rewrite imap_app, fold_left_app. simpl.
  rewrite Nat.add_0_r. reflexivity.
Qed.

(** Forgetting the positions gives back the output of the loop. *)
Lemma kept_run_boxes xs t : snd <$> kept_run xs t = deduplicate_boxes xs t.
Proof.
  induction xs as [|x xs IH] using rev_ind.
  - reflexivity.
  - rewrite kept_run_snoc, deduplicate_boxes_snoc.
    unfold indexed_step, dedupe_step. simpl. rewrite IH.
    destruct (suppressed _ _ _); [exact IH|].
    rewrite fmap_app, IH. reflexivity.
Qed.

Lemma kept_positions_snoc xs x t :
  kept_positions (xs ++ [x]) t =
  if suppressed t (deduplicate_boxes xs t) x then kept_positions xs t
  else kept_positions xs t ++ [length xs].
Proof.
  unfold kept_positions. rewrite kept_run_snoc. unfold indexed_step. simpl.
  rewrite kept_run_boxes. destruct (suppressed _ _ _); [reflexivity|].
  rewrite fmap_app. reflexivity.
Qed.

(** Every recorded entry is the input box at the recorded position. *)
Lemma kept_run_lookup xs t :
  Forall (fun p => xs !! fst p = Some (snd p)) (kept_run xs t).
Proof.
  induction xs as [|x xs IH] using rev_ind.
  - constructor.
  - rewrite kept_run_snoc. unfold indexed_step.
    assert (Forall (fun p => (xs ++ [x]) !! fst p = Some (snd p)) (kept_run xs t)) as H.
    { eapply Forall_impl; [exact IH|]. intros p Hp. apply lookup_app_l_Some, Hp. }
    destruct (suppressed _ _ _); [exact H|].
    apply Forall_app. split; [exact H|]. constructor; [|constructor].
    simpl. apply list_lookup_middle. reflexivity.
Qed.

Lemma kept_run_sorted xs t :
  StronglySorted (arrival_compatible t) (kept_run xs t).
Proof.
  induction xs as [|x xs IH] using rev_ind.
  - constructor.
  - rewrite kept_run_snoc. unfold indexed_step.
    destruct (suppressed t (snd <$> kept_run xs t) (snd (length xs, x))) eqn:E;
      [exact IH|].
    apply StronglySorted_snoc. split; [exact IH|].
    apply suppressed_false in E. rewrite Forall_fmap in E.
    pose proof (kept_run_lookup xs t) as L.
    apply Forall_forall. intros p Hp.
    rewrite Forall_forall in E. rewrite Forall_forall in L. split.
    + simpl. apply (lookup_lt_Some xs _ _ (L p Hp)).
    + apply (E p Hp).
Qed.

Lemma kept_positions_lookup xs t (i : nat) :
  i ∈ kept_positions xs t -> exists a, xs !! i = Some a /\ (i, a) ∈ kept_run xs t.
Proof.
  unfold kept_positions. intros H. apply list_elem_of_fmap in H.
  destruct H as ([k a] & -> & Hp). exists a. split; [|exact Hp].
  pose proof (kept_run_lookup xs t) as L. rewrite Forall_forall in L.
  apply (L _ Hp).
Qed.

Lemma StronglySorted_elem_of {A} (R : relation A) l x y :
  StronglySorted R l -> x ∈ l -> y ∈ l -> x = y \/ R x y \/ R y x.
Proof.
  induction l as [|z l IH]; intros H Hx Hy.
  - inversion Hx.
  - apply StronglySorted_cons in H. destruct H as [Hz Hl].
    rewrite Forall_forall in Hz.
    apply elem_of_cons in Hx. apply elem_of_cons in Hy.
    destruct Hx as [->|Hx], Hy as [->|Hy]; auto.
Qed.

(** Kept positions come out in increasing order. *)
Lemma kept_positions_increasing xs t :
  StronglySorted lt (kept_positions xs t).
Proof.
  unfold kept_positions.
  apply (StronglySorted_fmap fst (arrival_compatible t) lt).
  - intros p q [H _]. exact H.
  - apply kept_run_sorted.
Qed.

(** The k-th output box is the input box at the k-th kept position. *)
Lemma kept_positions_output xs t :
  Forall2 (fun (k : nat) d => xs !! k = Some d)
    (kept_positions xs t) (deduplicate_boxes xs t).
Proof.
  rewrite <- kept_run_boxes. unfold kept_positions.
  apply Forall2_fmap, Forall_Forall2_diag, kept_run_lookup.
Qed.

(** A position that did not survive was suppressed by a box kept before. *)
Lemma dropped_position_suppressed xs t (i : nat) a :
  xs !! i = Some a -> i ∉ kept_positions xs t ->
  exists (k : nat) c, (k < i)%nat /\ k ∈ kept_positions xs t /\
    xs !! k = Some c /\ (t < iou a c)%Q.
Proof.
  revert i a. induction xs as [|x xs IH] using rev_ind; intros i a Hi Hni.
  - discriminate.
  - rewrite kept_positions_snoc in *.
    apply lookup_snoc_Some in Hi. destruct Hi as [[Hlt Hi]|[-> ->]].
    + destruct (IH i a Hi) as (k & c & Hk & Hin & Hc & Hiou).
      { intros Hin. apply Hni. destruct (suppressed _ _ _); [exact Hin|].
        apply elem_of_app. left. exact Hin. }
      exists k, c. split; [exact Hk|]. split; [|split; [|exact Hiou]].
      * destruct (suppressed _ _ _); [exact Hin|]. apply elem_of_app. left. exact Hin.
      * apply lookup_app_l_Some, Hc.
    + destruct (suppressed t (deduplicate_boxes xs t) a) eqn:E.
      * apply suppressed_true in E. destruct E as (c & Hc & Hiou).
        rewrite <- kept_run_boxes in Hc. apply list_elem_of_fmap in Hc.
        destruct Hc as ([k c'] & -> & Hp). simpl in Hiou.
        pose proof (kept_run_lookup xs t) as L. rewrite Forall_forall in L.
        pose proof (L _ Hp) as Hk. simpl in Hk.
        exists k, c'. split; [apply (lookup_lt_Some _ _ _ Hk)|].
        split; [|split; [apply lookup_app_l_Some, Hk | exact Hiou]].
        unfold kept_positions. apply list_elem_of_fmap. exists (k, c'). auto.
      * exfalso. apply Hni, elem_of_app. right. apply list_elem_of_singleton. reflexivity.
Qed.

(** C2, as worded, fails.  Input A, B, C in this order with threshold 0.6:
    B overlaps A (IoU 2/3) and C overlaps B (IoU 2/3), but C does not overlap
    A enough (IoU 3/7).  B is dropped because of A, and C is then only
    compared with A and kept: of the pair (B, C), whose IoU exceeds the
    threshold, the survivor is C, the one that arrived later. *)
Lemma later_of_overlapping_pair_survives :
  let A := mkDetection 0 0 10 10 0 in
  let B := mkDetection 0 2 10 12 0 in
  let C := mkDetection 0 4 10 14 0 in
  let xs := [A; B; C] in
  xs !! 1%nat = Some B /\ xs !! 2%nat = Some C /\
  (6 # 10 < iou B C)%Q /\
  deduplicate_boxes xs (6 # 10) = [A; C] /\
  kept_positions xs (6 # 10) = [0%nat; 2%nat].
Proof. vm_compute. repeat split; reflexivity. Qed.

(** C2, amended.  For a pair of input detections at positions i < j whose IoU
    strictly exceeds the threshold, at most one of the two is in the output:
    when the earlier one is kept the later one is dropped, and the later one
    can be kept only when the earlier one was itself suppressed by a detection
    kept before it.  The kept positions are increasing and the output lists
    the input boxes at these positions, so the output preserves the arrival
    order of the kept detections. *)
Theorem dedupe_overlapping_pair (xs : list Detection) (t : Q) (i j : nat)
    (a b : Detection) :
  (i < j)%nat -> xs !! i = Some a -> xs !! j = Some b -> (t < iou a b)%Q ->
  (i ∈ kept_positions xs t -> j ∉ kept_positions xs t) /\
  (j ∈ kept_positions xs t ->
     exists (k : nat) c, (k < i)%nat /\ k ∈ kept_positions xs t /\
       xs !! k = Some c /\ (t < iou a c)%Q) /\
  StronglySorted lt (kept_positions xs t) /\
  Forall2 (fun (k : nat) d => xs !! k = Some d)
    (kept_positions xs t) (deduplicate_boxes xs t).
Proof.
  intros Hij Hi Hj Hiou.
  assert (i ∈ kept_positions xs t -> j ∉ kept_positions xs t) as Hone.
  { intros Ki Kj.
    apply kept_positions_lookup in Ki. destruct Ki as (a' & Ha' & Ki).
    apply kept_positions_lookup in Kj. destruct Kj as (b' & Hb' & Kj).
    assert (a' = a) as -> by congruence. assert (b' = b) as -> by congruence.
    destruct (StronglySorted_elem_of _ _ _ _ (kept_run_sorted xs t) Ki Kj)
      as [E|[[_ Hc]|[Hlt _]]].
    - injection E as E _. lia.
    - unfold compatible in Hc. simpl in Hc. rewrite iou_sym in Hc.
      exact (Qlt_not_le _ _ Hiou Hc).
    - simpl in Hlt. lia. }
  split; [exact Hone|]. split.
  - intros Kj. apply (dropped_position_suppressed xs t i a Hi).
    intros Ki. exact (Hone Ki Kj).
  - split; [apply kept_positions_increasing | apply kept_positions_output].
Qed.

(** Scenario B of the specification: of A = (10,10,110,110) and
    B = (15,15,115,115), only A survives. *)
Lemma dedupe_overlapping_pair_witness :
  1%nat ∉ kept_positions
    [mkDetection 10 10 110 110 0; mkDetection 15 15 115 115 0] (6 # 10).
Proof.
  apply (proj1 (dedupe_overlapping_pair
    [mkDetection 10 10 110 110 0; mkDetection 15 15 115 115 0] (6 # 10)
    0 1 (mkDetection 10 10 110 110 0) (mkDetection 15 15 115 115 0)
    ltac:(lia) eq_refl eq_refl ltac:(reflexivity))).
  vm_compute. constructor.
Defined.

(** ** Class labels play no part *)

Lemma iou_same_box a b a' b' :
  shapely_box a = shapely_box a' -> shapely_box b = shapely_box b' ->
  iou a b = iou a' b'.
Proof. unfold iou. intros -> ->. reflexivity. Qed.

Lemma suppressed_same_box t final final' box box' :
  Forall2 (fun c c' => shapely_box c = shapely_box c') final final' ->
  shapely_box box = shapely_box box' ->
  suppressed t final box = suppressed t final' box'.
Proof.
  intros H Hb. unfold suppressed. induction H as [|c c' l l' Hc _ IH]; simpl.
  - reflexivity.
  - rewrite IH, (iou_same_box box c box' c' Hb Hc). reflexivity.
Qed.

Lemma indexed_fold_same_geometry t l l' acc acc' :
  Forall2 same_geometry l l' -> Forall2 same_geometry acc acc' ->
  Forall2 same_geometry
    (fold_left (indexed_step t) l acc) (fold_left (indexed_step t) l' acc').
Proof.
  intros H. revert acc acc'.
  induction H as [|p q l l' Hpq _ IH]; intros acc acc' Hacc; simpl.
  - exact Hacc.
  - apply IH. unfold indexed_step.
    rewrite (suppressed_same_box t (snd <$> acc) (snd <$> acc') (snd p) (snd q)).
    + destruct (suppressed _ _ _); [exact Hacc|].
      apply Forall2_app; [exact Hacc|]. constructor; [exact Hpq|constructor].
    + apply Forall2_fmap. eapply Forall2_impl; [exact Hacc|].
      intros ? ? [_ H]. exact H.
    + apply Hpq.
Qed.

Lemma imap_pair_same_geometry (xs ys : list Detection) (n : nat) :
  Forall2 (fun a b => shapely_box a = shapely_box b) xs ys ->
  Forall2 same_geometry (imap (fun i => pair (n + i)%nat) xs)
    (imap (fun i => pair (n + i)%nat) ys).
Proof.
  intros H. revert n. induction H as [|a b xs ys Hab _ IH]; intros n.
  - constructor.
  - rewrite !imap_cons. constructor.
    + split; [reflexivity|exact Hab].
    + specialize (IH (S n)).
      erewrite (imap_ext _ (fun i => pair (S n + i)%nat) xs);
        [erewrite (imap_ext _ (fun i => pair (S n + i)%nat) ys); [exact IH|]|];
        intros; simpl; f_equal; lia.
Qed.

(** C3.  Suppression looks at geometry only.  For a pair of detections, the
    test that makes one suppress the other gives the same answer whatever
    their class labels; and for two input lists with the same coordinates
    position by position, whatever their class labels, the same positions
    survive. *)
Theorem dedupe_ignores_class :
  (forall a b a' b' t,
     shapely_box a = shapely_box a' -> shapely_box b = shapely_box b' ->
     Qgtb (iou a b) t = Qgtb (iou a' b') t) /\
  (forall xs ys t,
     shapely_box <$> xs = shapely_box <$> ys ->
     kept_positions xs t = kept_positions ys t /\
     shapely_box <$> deduplicate_boxes xs t =
       shapely_box <$> deduplicate_boxes ys t).
Proof.
  split.
  - intros a b a' b' t Ha Hb. rewrite (iou_same_box a b a' b' Ha Hb). reflexivity.
  - intros xs ys t H.
    assert (Forall2 same_geometry (kept_run xs t) (kept_run ys t)) as G.
    { unfold kept_run. apply indexed_fold_same_geometry; [|constructor].
      apply (imap_pair_same_geometry xs ys 0).
      apply list_eq_Forall2 in H. rewrite Forall2_fmap in H. exact H. }
    split.
    + unfold kept_positions. apply list_eq_Forall2, Forall2_fmap.
      eapply Forall2_impl; [exact G|]. intros ? ? [E _]. exact E.
    + rewrite <- !kept_run_boxes, <- !list_fmap_compose.
      apply list_eq_Forall2, Forall2_fmap.
      eapply Forall2_impl; [exact G|]. intros ? ? [_ E]. exact E.
Qed.

(** The boxes of Scenario B with two different classes are de-duplicated as
    with one class. *)
Lemma dedupe_ignores_class_witness :
  kept_positions
    [mkDetection 10 10 110 110 0; mkDetection 15 15 115 115 0] (6 # 10) =
  kept_positions
    [mkDetection 10 10 110 110 4; mkDetection 15 15 115 115 1] (6 # 10).
Proof.
  apply (proj2 dedupe_ignores_class
    [mkDetection 10 10 110 110 0; mkDetection 15 15 115 115 0]
    [mkDetection 10 10 110 110 4; mkDetection 15 15 115 115 1]
    (6 # 10) eq_refl).
Defined.

(** ** The definition of IoU *)

(** C5.  IoU is the intersection area divided by the union area when the
    union area is positive, and 0 when the union area is 0, which are the only
    two cases; in the second case the pair is not treated as a duplicate under
    any non-negative threshold: the test of the loop fails, and the presence
    of [b] among the kept boxes does not change whether [a] is suppressed. *)
Theorem iou_is_intersection_over_union (a b : Detection) :
  let inter := intersection_area (shapely_box a) (shapely_box b) in
  let union := union_area (shapely_box a) (shapely_box b) in
  0 <= union /\
  (0 < union -> (iou a b == inject_Z inter / inject_Z union)%Q) /\
  (union = 0 ->
     iou a b = 0%Q /\
     forall t final, (0 <= t)%Q ->
       Qgtb (iou a b) t = false /\
       suppressed t (final ++ [b]) a = suppressed t final a).
Proof.
  cbv zeta. split; [apply union_area_nonneg|]. split.
  - intros H. unfold iou. cbv zeta.
    destruct (0 <? _) eqn:E; [|apply Z.ltb_ge in E; lia].
    rewrite Qmake_Qdiv, Z2Pos.id by exact H. reflexivity.
  - intros H.
    assert (iou a b = 0%Q) as E.
    { unfold iou. cbv zeta. rewrite H. reflexivity. }
    split; [exact E|]. intros t final Ht.
    assert (Qgtb (iou a b) t = false) as G.
    { rewrite E. apply Qgtb_false, Ht. }
    split; [exact G|].
    unfold suppressed. rewrite existsb_app. simpl.
    rewrite G, !orb_false_r. reflexivity.
Qed.

(** Scenario B: the IoU of (10,10,110,110) and (15,15,115,115) is
    9025 / 10975, about 0.82. *)
Lemma iou_is_intersection_over_union_witness :
  (iou (mkDetection 10 10 110 110 0) (mkDetection 15 15 115 115 0) ==
   inject_Z 9025 / inject_Z 10975)%Q.
Proof.
  apply (proj1 (proj2 (iou_is_intersection_over_union
    (mkDetection 10 10 110 110 0) (mkDetection 15 15 115 115 0)))).
  reflexivity.
Defined.

(** A box of zero area has IoU 0 with every box. *)
Lemma iou_zero_area a b : area (shapely_box a) = 0 -> (iou a b == 0)%Q.
Proof.
  intros H. unfold iou. cbv zeta.
  pose proof (intersection_area_le_l (shapely_box a) (shapely_box b)).
  pose proof (intersection_area_nonneg (shapely_box a) (shapely_box b)).
  assert (intersection_area (shapely_box a) (shapely_box b) = 0) as -> by lia.
  destruct (0 <? _); reflexivity.
Qed.

(** ** Scale and resized size *)

Lemma Qfloor_scaled (w t m : Z) :
  0 < m ->
  Qfloor (inject_Z w * (inject_Z t / inject_Z m)) = w * t / m.
Proof.
  intros Hm. destruct m as [|p|p]; try lia.
  unfold Qfloor, Qdiv, Qinv, Qmult, inject_Z. simpl Qnum. simpl Qden.
  rewrite Z.mul_1_r. reflexivity.
Qed.

Lemma scaled_nonneg (w t m : Z) :
  0 <= w -> 0 <= t -> 0 < m ->
  (0 <= inject_Z w * (inject_Z t / inject_Z m))%Q.
Proof.
  intros Hw Ht Hm. apply Qmult_le_0_compat.
  - change 0%Q with (inject_Z 0). rewrite <- Zle_Qle. exact Hw.
  - apply Qle_shift_div_l.
    + change 0%Q with (inject_Z 0). rewrite <- Zlt_Qlt. exact Hm.
    + rewrite Qmult_0_l. change 0%Q with (inject_Z 0). rewrite <- Zle_Qle. exact Ht.
Qed.

Lemma int_of_scaled (w t m : Z) :
  0 <= w -> 0 <= t -> 0 < m ->
  int_of (inject_Z w * (inject_Z t / inject_Z m)) = w * t / m.
Proof.
  intros Hw Ht Hm. rewrite int_of_nonneg by (apply scaled_nonneg; assumption).
  apply Qfloor_scaled, Hm.
Qed.

Lemma int_of_unscaled (w : Z) : int_of (inject_Z w * 1) = w.
Proof.
  unfold int_of, Qmult, inject_Z. simpl. rewrite Z.mul_1_r. apply Z.quot_1_r.
Qed.

(** The scale of the guarded variants: the quotient when the larger side
    exceeds the target, 1 otherwise; never more than 1. *)
Lemma guarded_scale_le_1 (t m : Z) :
  0 < m -> t < m -> (inject_Z t / inject_Z m <= 1)%Q.
Proof.
  intros Hm Ht. apply Qle_shift_div_r.
  - change 0%Q with (inject_Z 0). rewrite <- Zlt_Qlt. exact Hm.
  - rewrite Qmult_1_l. rewrite <- Zle_Qle. lia.
Qed.

Lemma ResizeCell_scale (h w t : Z) shape s :
  0 < h -> 0 < w ->
  ResizeCell.resize_bicubic_max_side (h, w) t = Some (shape, s) ->
  s = (if t <? Z.max h w then inject_Z t / inject_Z (Z.max h w) else 1)%Q /\
  (s <= 1)%Q.
Proof.
  intros Hh Hw. unfold ResizeCell.resize_bicubic_max_side.
  destruct (t <? Z.max h w) eqn:E.
  - apply Z.ltb_lt in E.
    destruct (Z.max h w =? 0) eqn:E0; [discriminate|].
    destruct (cv2_resize _); [|discriminate].
    intros [= _ <-]. split; [reflexivity|].
    apply guarded_scale_le_1; lia.
  - intros [= _ <-]. split; [reflexivity|]. apply Qle_refl.
Qed.

Lemma Swift_geometry_scale (w h t : Z) :
  0 < w -> 0 < h ->
  exists g, Swift.geometry w h t = Some g /\
    Swift.scale g =
      (if t <? Z.max w h then inject_Z t / inject_Z (Z.max w h) else 1)%Q /\
    (Swift.scale g <= 1)%Q.
Proof.
  intros Hw Hh. unfold Swift.geometry.
  destruct (Qgtb (inject_Z (Z.max w h)) (inject_Z t)) eqn:E.
  - apply Qgtb_true in E. rewrite <- Zlt_Qlt in E.
    destruct (Z.max w h =? 0) eqn:E0; [apply Z.eqb_eq in E0; lia|].
    eexists. split; [reflexivity|]. simpl.
    rewrite (proj2 (Z.ltb_lt _ _) E). split; [reflexivity|].
    apply guarded_scale_le_1; lia.
  - apply Qgtb_false in E. rewrite <- Zle_Qle in E.
    eexists. split; [reflexivity|]. simpl.
    assert ((t <? Z.max w h) = false) as -> by (apply Z.ltb_ge; lia).
    split; [reflexivity|]. apply Qle_refl.
Qed.

(** C1.  The variant of [resize_bicubic_max_side] in the inference cell has
    no guard: on a 100 x 100 image with its default target 1280 it returns the
    scale 1280/100 = 12.8 and a 1280 x 1280 image, an upscale, where the
    variant of the resize cell and the Xcode pipeline return scale 1. *)
Theorem InferenceCell_resize_upscales :
  exists s,
    InferenceCell.resize_bicubic_max_side (100, 100)
      InferenceCell.default_target_size = Some ((1280, 1280), s) /\
    (s == 128 # 10)%Q /\ (1 < s)%Q /\
    ResizeCell.resize_bicubic_max_side (100, 100)
      InferenceCell.default_target_size = Some ((100, 100), 1%Q) /\
    (Swift.scale <$> Swift.geometry 100 100 InferenceCell.default_target_size)
      = Some 1%Q.
Proof.
  eexists. split; [vm_compute; reflexivity|].
  split; [reflexivity|]. split; [reflexivity|]. split; reflexivity.
Qed.

(** C6, as worded, fails.  For a 1001 x 3000 image (width x height) and
    target 1600 the scale is 1600/3000 and width * scale is about 533.87: all
    three variants ask for width 533, the truncation, where rounding to the
    nearest integer gives 534; in exact arithmetic and in binary64 alike. *)
Lemma resized_width_is_not_rounded :
  let s := (inject_Z 1600 / inject_Z 3000)%Q in
  ResizeCell.resize_bicubic_max_side (3000, 1001) 1600 = Some ((1600, 533), s) /\
  InferenceCell.resize_bicubic_max_side (3000, 1001) 1600 = Some ((1600, 533), s) /\
  (Swift.newWidth <$> Swift.geometry 1001 3000 1600) = Some 533 /\
  round_nearest (inject_Z 1001 * s) = 534 /\
  (1 # 2 < inject_Z 1001 * s - 533)%Q /\
  (fst <$> ResizeCell64.resize_bicubic_max_side (3000, 1001) 1600)
    = Some (1600, 533) /\
  (fst <$> InferenceCell64.resize_bicubic_max_side (3000, 1001) 1600)
    = Some (1600, 533) /\
  (Swift64.newWidth <$> Swift64.geometry 1001 3000 1600) = Some 533.
Proof. vm_compute. repeat split; reflexivity. Qed.

Lemma quotient_nonneg (t m : Z) :
  0 <= t -> 0 < m -> (0 <= inject_Z t / inject_Z m)%Q.
Proof.
  intros Ht Hm. apply Qle_shift_div_l.
  - change 0%Q with (inject_Z 0). rewrite <- Zlt_Qlt. exact Hm.
  - rewrite Qmult_0_l. change 0%Q with (inject_Z 0). rewrite <- Zle_Qle. exact Ht.
Qed.

Lemma cv2_resize_Some dsize shape :
  cv2_resize dsize = Some shape ->
  0 < fst dsize /\ 0 < snd dsize /\ shape = (snd dsize, fst dsize).
Proof.
  destruct dsize as [new_w new_h]. unfold cv2_resize.
  destruct (0 <? new_w) eqn:Ew; [|discriminate].
  destruct (0 <? new_h) eqn:Eh; [|discriminate].
  simpl. intros [= <-]. apply Z.ltb_lt in Ew, Eh. auto.
Qed.

(** *** Truncation in binary64 *)

Lemma binary_round_aux_sign_clear m e l :
  Binary64.sign_clear (binary_round_aux Binary64.prec Binary64.emax false m e l).
Proof.
  unfold binary_round_aux.
  destruct (shr_fexp _ _ m e l) as [mrs' e'].
  destruct (shr_fexp _ _ _ e' loc_Exact) as [mrs'' e''].
  destruct (shr_m mrs''); simpl; [reflexivity| |exact I].
  destruct (Z.leb _ _); reflexivity.
Qed.

Lemma of_int_sign_clear (n : Z) : 0 <= n -> Binary64.sign_clear (Binary64.of_int n).
Proof.
  intros H. unfold Binary64.of_int, binary_normalize.
  destruct n as [|p|p]; [reflexivity| |lia].
  unfold binary_round. destruct (shl_align _ _ _) as [mz ez].
  apply binary_round_aux_sign_clear.
Qed.

Lemma mul_sign_clear x y :
  Binary64.sign_clear x -> Binary64.sign_clear y ->
  Binary64.sign_clear (Binary64.mul x y).
Proof.
  unfold Binary64.mul.
  destruct x as [sx|sx| |sx mx ex], y as [sy|sy| |sy my ey]; simpl;
    intros Hx Hy; subst; try reflexivity; try exact I.
  apply binary_round_aux_sign_clear.
Qed.

Lemma div_sign_clear x y :
  Binary64.sign_clear x -> Binary64.sign_clear y ->
  Binary64.sign_clear (Binary64.div x y).
Proof.
  unfold Binary64.div.
  destruct x as [sx|sx| |sx mx ex], y as [sy|sy| |sy my ey]; simpl;
    intros Hx Hy; subst; try reflexivity; try exact I.
  destruct (SFdiv_core_binary _ _ _ _ _ _) as [[mz ez] lz].
  apply binary_round_aux_sign_clear.
Qed.

Lemma to_Q_nonneg x : Binary64.sign_clear x -> (0 <= Binary64.to_Q x)%Q.
Proof.
  destruct x as [s|s| |s m e]; simpl; try (intros _; apply Qle_refl).
  intros ->. simpl. destruct e as [|p|p]; unfold Qle; simpl; lia.
Qed.

(** On a float that is not negative, [int] gives the largest integer not
    above its value. *)
Lemma trunc_truncates x n :
  Binary64.sign_clear x -> Binary64.trunc x = Some n -> Binary64.truncates x n.
Proof.
  intros Hs Ht. split; [exact Ht|].
  pose proof (to_Q_nonneg x Hs) as Hq.
  destruct x as [s|s| |s m e]; unfold Binary64.trunc in Ht; try discriminate.
  - injection Ht as <-. split; [apply Qle_refl|reflexivity].
  - assert (n = Qfloor (Binary64.to_Q (S754_finite s m e))) as ->.
    { rewrite <- (int_of_nonneg _ Hq). congruence. }
    split; [apply Qfloor_le|apply Qlt_floor].
Qed.

Lemma new_size_truncates (w h : Z) s new_w new_h :
  0 <= w -> 0 <= h -> Binary64.sign_clear s ->
  Binary64.new_size w h s = Some (new_w, new_h) ->
  Binary64.truncates (Binary64.mul (Binary64.of_int w) s) new_w /\
  Binary64.truncates (Binary64.mul (Binary64.of_int h) s) new_h.
Proof.
  intros Hw Hh Hs. unfold Binary64.new_size.
  destruct (Binary64.trunc (Binary64.mul (Binary64.of_int w) s)) as [a|] eqn:Ea;
    [|discriminate].
  destruct (Binary64.trunc (Binary64.mul (Binary64.of_int h) s)) as [b|] eqn:Eb;
    [|discriminate].
  intros [= <- <-].
  split; apply trunc_truncates; try assumption;
    apply mul_sign_clear; try assumption; apply of_int_sign_clear; assumption.
Qed.

(** The two models on the inputs discussed: 1001 x 3000 gives width 533 in
    both; for 1000 x 2156 the product 2156 * (1600 / 2156) is just below 1600
    in binary64, so the code asks for height 1599 where exact arithmetic
    gives 1600. *)
Lemma binary64_resize_examples :
  (fst <$> ResizeCell64.resize_bicubic_max_side (3000, 1001) 1600)
    = Some (1600, 533) /\
  (fst <$> ResizeCell64.resize_bicubic_max_side (2156, 1000) 1600)
    = Some (1599, 742) /\
  (fst <$> ResizeCell.resize_bicubic_max_side (2156, 1000) 1600)
    = Some (1600, 742) /\
  (Swift64.newHeight <$> Swift64.geometry 1000 2156 1600) = Some 1599 /\
  (Binary64.to_Q
     (Binary64.mul (Binary64.of_int 2156)
        (Binary64.div (Binary64.of_int 1600) (Binary64.of_int 2156)))
   < 1600)%Q.
Proof. vm_compute. repeat split; reflexivity. Qed.

(** C6, amended.  The resized size is obtained by truncation, not by
    rounding to the nearest integer: for positive width, height and target,
    whenever a variant resizes, the width and the height it uses are
    [int(width * scale)] and [int(height * scale)], the largest integers not
    above the binary64 products of the sides with the scale it returns.  The
    resize cell does so when the larger side exceeds the target and returns
    the image unchanged otherwise; the Xcode pipeline does so with its own
    scale. *)
Theorem resized_size_is_truncated_binary64 (w h t : Z) :
  0 < w -> 0 < h -> 0 < t ->
  (forall h' w' s,
     t < Z.max h w ->
     ResizeCell64.resize_bicubic_max_side (h, w) t = Some ((h', w'), s) ->
     Binary64.truncates (Binary64.mul (Binary64.of_int w) s) w' /\
     Binary64.truncates (Binary64.mul (Binary64.of_int h) s) h') /\
  (Z.max h w <= t ->
     ResizeCell64.resize_bicubic_max_side (h, w) t =
       Some ((h, w), Binary64.of_int 1)) /\
  (forall h' w' s,
     InferenceCell64.resize_bicubic_max_side (h, w) t = Some ((h', w'), s) ->
     Binary64.truncates (Binary64.mul (Binary64.of_int w) s) w' /\
     Binary64.truncates (Binary64.mul (Binary64.of_int h) s) h') /\
  (forall g,
     Swift64.geometry w h t = Some g ->
     Binary64.truncates
       (Binary64.mul (Binary64.of_int w) (Swift64.scale g)) (Swift64.newWidth g) /\
     Binary64.truncates
       (Binary64.mul (Binary64.of_int h) (Swift64.scale g)) (Swift64.newHeight g)).
Proof.
  intros Hw Hh Ht.
  assert (Binary64.sign_clear
            (Binary64.div (Binary64.of_int t) (Binary64.of_int (Z.max h w))))
    as Hs by (apply div_sign_clear; apply of_int_sign_clear; lia).
  split; [|split; [|split]].
  - intros h' w' s Hlt. unfold ResizeCell64.resize_bicubic_max_side.
    rewrite (proj2 (Z.ltb_lt _ _) Hlt).
    destruct (Z.max h w =? 0); [discriminate|].
    destruct (Binary64.new_size _ _ _) as [[new_w new_h]|] eqn:N; [|discriminate].
    destruct (cv2_resize _) as [shape|] eqn:R; [|discriminate].
    intros [= -> <-]. apply cv2_resize_Some in R. simpl in R.
    destruct R as (_ & _ & [= -> ->]).
    apply (new_size_truncates w h _ _ _ ltac:(lia) ltac:(lia) Hs N).
  - intros Hle. unfold ResizeCell64.resize_bicubic_max_side.
    rewrite (proj2 (Z.ltb_ge _ _)) by lia. reflexivity.
  - intros h' w' s. unfold InferenceCell64.resize_bicubic_max_side.
    destruct (Z.max h w =? 0); [discriminate|].
    destruct (Binary64.new_size _ _ _) as [[new_w new_h]|] eqn:N; [|discriminate].
    destruct (cv2_resize _) as [shape|] eqn:R; [|discriminate].
    intros [= -> <-]. apply cv2_resize_Some in R. simpl in R.
    destruct R as (_ & _ & [= -> ->]).
    apply (new_size_truncates w h _ _ _ ltac:(lia) ltac:(lia) Hs N).
  - intros g. unfold Swift64.geometry.
    set (sc := if Binary64.gtb _ _ then _ else _).
    assert (Binary64.sign_clear sc) as Hsc.
    { unfold sc. destruct (Binary64.gtb _ _).
      - apply div_sign_clear; [apply of_int_sign_clear; lia|].
        unfold Swift64.max. destruct (SFleb _ _); apply of_int_sign_clear; lia.
      - apply of_int_sign_clear. lia. }
    destruct (Binary64.trunc (Binary64.mul (Binary64.of_int w) sc)) as [a|] eqn:Ea;
      [|discriminate].
    destruct (Binary64.trunc (Binary64.mul (Binary64.of_int h) sc)) as [b|] eqn:Eb;
      [|discriminate].
    intros [= <-]. simpl.
    split; apply trunc_truncates; try assumption;
      apply mul_sign_clear; try assumption; apply of_int_sign_clear; lia.
Qed.

(** A 1000 x 2156 image at target 1600: the guarded variant returns height
    1599, the truncation of a product that binary64 places just below 1600. *)
Lemma resized_size_is_truncated_binary64_witness :
  Binary64.truncates
    (Binary64.mul (Binary64.of_int 2156)
       (Binary64.div (Binary64.of_int 1600) (Binary64.of_int 2156))) 1599.
Proof.
  apply (proj1 (resized_size_is_truncated_binary64 1000 2156 1600
           ltac:(lia) ltac:(lia) ltac:(lia))
           1599 742
           (Binary64.div (Binary64.of_int 1600) (Binary64.of_int 2156))
           ltac:(lia)).
  vm_compute. reflexivity.
Defined.

(** ** Letterbox padding *)

Lemma centred_offset (t n : Z) :
  n <= t ->
  (0 <= (inject_Z t - inject_Z n) / 2)%Q /\
  ((inject_Z t - inject_Z n) / 2 + inject_Z n + (inject_Z t - inject_Z n) / 2
     == inject_Z t)%Q.
Proof.
  intros H. split.
  - apply Qle_shift_div_l; [reflexivity|]. rewrite Qmult_0_l.
    unfold Qminus. rewrite <- Qle_minus_iff, <- Zle_Qle. exact H.
  - field.
Qed.

(** The resized image fits in the canvas. *)
Lemma Swift_resized_fits (w h t : Z) g :
  0 < w -> 0 < h -> 0 < t ->
  Swift.geometry w h t = Some g ->
  0 <= Swift.newWidth g <= t /\ 0 <= Swift.newHeight g <= t.
Proof.
  intros Hw Hh Ht. unfold Swift.geometry.
  destruct (Qgtb _ _) eqn:E.
  - apply Qgtb_true in E. rewrite <- Zlt_Qlt in E.
    destruct (Z.max w h =? 0); [discriminate|].
    intros [= <-]. simpl. rewrite !int_of_scaled by lia.
    repeat split.
    + apply Z.div_pos; nia.
    + apply Z.div_le_upper_bound; nia.
    + apply Z.div_pos; nia.
    + apply Z.div_le_upper_bound; nia.
  - apply Qgtb_false in E. rewrite <- Zle_Qle in E.
    intros [= <-]. simpl. rewrite !int_of_unscaled. lia.
Qed.

(** C7.  In the Xcode pipeline, for positive sizes, the offsets are
    (targetSize - newWidth) / 2 and (targetSize - newHeight) / 2, both
    non-negative, and they centre the resized image in the square canvas of
    side targetSize: offset + resized side + offset = targetSize on each axis.
    For a 1920 x 1440 image and target 1600: scale 1600/1920, resized size
    1600 x 1200, offsets 0 and 200. *)
Theorem letterbox_padding_centres :
  (forall (w h t : Z) (self_size : Z * Z) (buffer_created : bool),
     0 < w -> 0 < h -> 0 < t ->
     exists g,
       Swift.geometry w h t = Some g /\
       Swift.resizedDownwardLetterboxedWithMetadata (Some (w, h)) self_size t
         buffer_created =
         Some (Swift.mkMetadata buffer_created (Swift.scale g)
                 (Swift.xOffset g) (Swift.yOffset g) (t, t)) /\
       Swift.xOffset g = ((inject_Z t - inject_Z (Swift.newWidth g)) / 2)%Q /\
       Swift.yOffset g = ((inject_Z t - inject_Z (Swift.newHeight g)) / 2)%Q /\
       (0 <= Swift.xOffset g)%Q /\ (0 <= Swift.yOffset g)%Q /\
       (Swift.xOffset g + inject_Z (Swift.newWidth g) + Swift.xOffset g
          == inject_Z t)%Q /\
       (Swift.yOffset g + inject_Z (Swift.newHeight g) + Swift.yOffset g
          == inject_Z t)%Q) /\
  (exists g,
     Swift.geometry 1920 1440 1600 = Some g /\
     (Swift.scale g == 1600 # 1920)%Q /\
     Swift.newWidth g = 1600 /\ Swift.newHeight g = 1200 /\
     (Swift.xOffset g == 0)%Q /\ (Swift.yOffset g == 200)%Q).
Proof.
  split.
  - intros w h t self_size buffer_created Hw Hh Ht.
    destruct (Swift_geometry_scale w h t Hw Hh) as (g & Hg & _).
    exists g. split; [exact Hg|].
    destruct (Swift_resized_fits w h t g Hw Hh Ht Hg) as [[_ Hx] [_ Hy]].
    assert (Swift.xOffset g = ((inject_Z t - inject_Z (Swift.newWidth g)) / 2)%Q /\
            Swift.yOffset g = ((inject_Z t - inject_Z (Swift.newHeight g)) / 2)%Q)
      as [Ex Ey].
    { revert Hg. unfold Swift.geometry.
      destruct (Qgtb _ _); [destruct (Z.max w h =? 0); [discriminate|]|];
        intros [= <-]; split; reflexivity. }
    split; [unfold Swift.resizedDownwardLetterboxedWithMetadata; rewrite Hg; reflexivity|].
    split; [exact Ex|]. split; [exact Ey|].
    rewrite Ex, Ey.
    destruct (centred_offset t _ Hx) as [Px Cx].
    destruct (centred_offset t _ Hy) as [Py Cy].
    repeat split; assumption.
  - eexists. split; [vm_compute; reflexivity|].
    repeat split; reflexivity.
Qed.

(** Scenario A of the specification as an instance of the general statement. *)
Lemma letterbox_padding_centres_witness :
  exists g,
    Swift.geometry 1920 1440 1600 = Some g /\
    (0 <= Swift.xOffset g)%Q /\ (0 <= Swift.yOffset g)%Q.
Proof.
  destruct (proj1 letterbox_padding_centres 1920 1440 1600 (1920, 1440) true
              ltac:(lia) ltac:(lia) ltac:(lia))
    as (g & Hg & _ & _ & _ & Hx & Hy & _).
  exists g. repeat split; assumption.
Defined.

(** ** What reaches the de-duplication in the Colab loop *)

Lemma raw_boxes_fmap (results : list EngineBox) :
  Colab.raw_boxes results = Colab.to_tuple <$> results.
Proof.
  unfold Colab.raw_boxes.
  induction results as [|b results IH] using rev_ind.
  - reflexivity.
  - rewrite fold_left_app, fmap_app. simpl. rewrite IH. reflexivity.
Qed.

(** C9, as worded, fails on the Colab loop.  With a confidence threshold of
    0.3, an engine box of confidence 0.27 is below the threshold, yet it is in
    the list handed to [deduplicate_boxes] and, being alone, it is in the
    output as well. *)
Lemma low_confidence_box_reaches_dedupe :
  let box := mkEngineBox (10 # 1, 10 # 1, 110 # 1, 110 # 1)%Q (27 # 100) (1 # 1) in
  (conf box < 3 # 10)%Q /\
  Colab.raw_boxes [box] = [mkDetection 10 10 110 110 1] /\
  Colab.all_boxes [box] = [mkDetection 10 10 110 110 1].
Proof. vm_compute. repeat split; reflexivity. Qed.

(** C9, amended.  The Colab loop applies no confidence filter: the list handed
    to [deduplicate_boxes] holds one tuple per engine box, in engine order,
    built from the coordinates and the class only, so it stays the same when
    the confidences are replaced by any others; every engine box is in it. *)
Theorem every_engine_box_reaches_dedupe (results : list EngineBox) :
  Colab.raw_boxes results = Colab.to_tuple <$> results /\
  Colab.all_boxes results =
    deduplicate_boxes (Colab.to_tuple <$> results) (6 # 10) /\
  (forall c : EngineBox -> Q,
     Colab.raw_boxes ((fun box => Colab.with_conf (c box) box) <$> results) =
     Colab.raw_boxes results) /\
  (forall box, box ∈ results -> Colab.to_tuple box ∈ Colab.raw_boxes results).
Proof.
  split; [apply raw_boxes_fmap|]. split.
  - unfold Colab.all_boxes. rewrite raw_boxes_fmap. reflexivity.
  - split.
    + intros c. rewrite !raw_boxes_fmap, <- list_fmap_compose.
      apply list_fmap_ext. intros _ box _. reflexivity.
    + intros box H. rewrite raw_boxes_fmap. apply list_elem_of_fmap_2, H.
Qed.

Lemma every_engine_box_reaches_dedupe_witness :
  Colab.to_tuple
    (mkEngineBox (10 # 1, 10 # 1, 110 # 1, 110 # 1)%Q (27 # 100) (1 # 1))
  ∈ Colab.raw_boxes
      [mkEngineBox (10 # 1, 10 # 1, 110 # 1, 110 # 1)%Q (27 # 100) (1 # 1)].
Proof.
  apply (proj2 (proj2 (proj2 (every_engine_box_reaches_dedupe
    [mkEngineBox (10 # 1, 10 # 1, 110 # 1, 110 # 1)%Q (27 # 100) (1 # 1)])))).
  constructor.
Defined.

(** ** Drawing and the input image *)

Lemma alloc_fresh (sigma : Store) (px : Pixels) :
  sigma !! fst (alloc sigma px) = None.
Proof. unfold alloc. simpl. apply not_elem_of_dom, is_fresh. Qed.

(** Drawing repeatedly into one image leaves the others alone. *)
Lemma fold_alter_other {A} (f : A -> Pixels -> Pixels) (ds : list A)
    (img k : loc) (sigma : Store) :
  k <> img ->
  fold_left (fun s d => alter (f d) img s) ds sigma !! k = sigma !! k.
Proof.
  intros Hk. revert sigma. induction ds as [|d ds IH]; intros sigma; simpl.
  - reflexivity.
  - rewrite IH. apply lookup_alter_ne. congruence.
Qed.

Lemma fold_alter_same {A} (f : A -> Pixels -> Pixels) (ds : list A)
    (img : loc) (sigma : Store) :
  fold_left (fun s d => alter (f d) img s) ds sigma !! img =
  (fun px => fold_left (fun p d => f d p) ds px) <$> sigma !! img.
Proof.
  revert sigma. induction ds as [|d ds IH]; intros sigma; simpl.
  - destruct (sigma !! img); reflexivity.
  - rewrite IH, lookup_alter_eq. destruct (sigma !! img); reflexivity.
Qed.

(** C8, as worded, fails on the Colab loop: [cv2.rectangle] writes into the
    array it is given.  On a 2 x 2 black image with one box (0,0,1,1) of class
    0, the array that [img] refers to no longer holds the loaded pixels after
    the drawing step, and it is this same array that is written out. *)
Lemma colab_drawing_overwrites_input :
  let black := [[(0, 0, 0); (0, 0, 0)]; [(0, 0, 0); (0, 0, 0)]] in
  let blue := (31, 119, 180) in
  let painted := [[blue; blue]; [blue; blue]] in
  let sigma : Store := {[ 1%positive := black ]} in
  sigma !! 1%positive = Some black /\
  Colab.draw_boxes sigma 1%positive [mkDetection 0 0 1 1 0] !! 1%positive
    = Some painted /\
  painted <> black /\
  exists img s,
    Colab.process_image ∅ (Some black)
      (fun _ => [mkEngineBox (0 # 1, 0 # 1, 1 # 1, 1 # 1)%Q (9 # 10) (0 # 1)])
    = Some (img, painted, s) /\
    s !! img = Some painted.
Proof.
  cbv zeta. split; [reflexivity|]. split; [vm_compute; reflexivity|].
  split; [discriminate|].
  eexists _, _. split; vm_compute; reflexivity.
Qed.

(** C8, amended.  [drawDetections] of the Xcode pipeline returns a new image
    and leaves every existing image, its receiver among them, as it was,
    whatever the detections and whatever the rasterisers draw.  The drawing
    step of the Colab loop works in place: it may change the array [img]
    refers to and changes no other one (the copy given to the model among
    them). *)
Theorem drawDetections_leaves_input_unchanged
    (draw_at_zero : Pixels -> Pixels -> Pixels)
    (stroke : Q * Q * Q * Q -> Pixels -> Pixels)
    (draw_label : Q -> Q * Q -> Pixels -> Pixels)
    (sigma : Store) (self : loc) (self_px : Pixels)
    (detections : list SwiftRenderer.Detection) :
  sigma !! self = Some self_px ->
  (exists newImage s,
     SwiftRenderer.drawDetections draw_at_zero stroke draw_label
       sigma self detections = Some (newImage, s) /\
     sigma !! newImage = None /\
     newImage <> self /\
     is_Some (s !! newImage) /\
     s !! self = Some self_px /\
     forall l, l <> newImage -> s !! l = sigma !! l) /\
  (forall (boxes : list Detection) (l : loc),
     l <> self -> Colab.draw_boxes sigma self boxes !! l = sigma !! l).
Proof.
  intros Hself. split.
  - unfold SwiftRenderer.drawDetections. rewrite Hself.
    pose proof (alloc_fresh sigma (SwiftRenderer.new_image self_px)) as Hfresh.
    unfold alloc in *. simpl in Hfresh.
    set (newImage := fresh (dom sigma)) in *.
    assert (newImage <> self) as Hne by (intros ->; congruence).
    assert (forall l, l <> newImage ->
              fold_left
                (fun s d =>
                   alter (fun px =>
                     SwiftRenderer.draw_detection stroke draw_label px d)
                     newImage s)
                detections
                (alter (draw_at_zero self_px) newImage
                   (<[newImage := SwiftRenderer.new_image self_px]> sigma)) !! l
              = sigma !! l) as Hother.
    { intros l Hl.
      rewrite (fold_alter_other
                 (fun d px => SwiftRenderer.draw_detection stroke draw_label px d))
        by exact Hl.
      rewrite lookup_alter_ne by congruence.
      apply lookup_insert_ne. congruence. }
    eexists _, _. split; [reflexivity|].
    split; [exact Hfresh|]. split; [exact Hne|]. split; [|split].
    + rewrite (fold_alter_same
                 (fun d px => SwiftRenderer.draw_detection stroke draw_label px d)).
      rewrite lookup_alter_eq, lookup_insert_eq. simpl. eexists. reflexivity.
    + rewrite Hother by congruence. exact Hself.
    + exact Hother.
  - intros boxes l Hl. unfold Colab.draw_boxes.
    apply (fold_alter_other
             (fun d px => cv2_rectangle px (x1 d, y1 d) (x2 d, y2 d)
                            (color_of (cls d)) 2)).
    exact Hl.
Qed.

(** An instance: rasterisers that draw nothing, a store with one 1 x 1 image
    and one detection. *)
Lemma drawDetections_leaves_input_unchanged_witness :
  exists newImage s,
    SwiftRenderer.drawDetections (fun _ px => px) (fun _ px => px)
      (fun _ _ px => px) {[ 1%positive := [[(7, 7, 7)]] ]} 1%positive
      [SwiftRenderer.mkDetection (0 # 1, 0 # 1, 1 # 1, 1 # 1)%Q (9 # 10)]
    = Some (newImage, s) /\
    s !! 1%positive = Some [[(7, 7, 7)]].
Proof.
  assert (({[ 1%positive := [[(7, 7, 7)]] ]} : Store) !! 1%positive
          = Some [[(7, 7, 7)]]) as Hself by (vm_compute; reflexivity).
  destruct (proj1 (drawDetections_leaves_input_unchanged
    (fun _ px => px) (fun _ px => px) (fun _ _ px => px)
    {[ 1%positive := [[(7, 7, 7)]] ]} 1%positive [[(7, 7, 7)]]
    [SwiftRenderer.mkDetection (0 # 1, 0 # 1, 1 # 1, 1 # 1)%Q (9 # 10)]
    Hself))
    as (newImage & s & H & _ & _ & _ & Hs & _).
  exists newImage, s. split; assumption.
Defined.

(** * Further properties of the code *)

(** ** Shape of the de-duplication output *)

Lemma StronglySorted_lookup {A} (R : relation A) (l : list A) (i j : nat) a b :
  StronglySorted R l -> (i < j)%nat -> l !! i = Some a -> l !! j = Some b ->
  R a b.
Proof.
  intros H. revert i j. induction H as [|x l Hl IH Hx]; intros i j Hij Hi Hj.
  - discriminate.
  - destruct j as [|j]; [lia|]. destruct i as [|i]; simpl in *.
    + injection Hi as <-. rewrite Forall_forall in Hx.
      apply Hx. apply (list_elem_of_lookup_2 _ _ _ Hj).
    + apply (IH i j); [lia|exact Hi|exact Hj].
Qed.

Lemma kept_pair_below_threshold (xs : list Detection)
    (t : Q) (i j : nat) (a b : Detection) :
  i <> j ->
  deduplicate_boxes xs t !! i = Some a ->
  deduplicate_boxes xs t !! j = Some b ->
  (iou a b <= t)%Q.
Proof.
  intros Hij Hi Hj. pose proof (deduplicate_boxes_pairwise xs t) as S.
  destruct (Nat.lt_total i j) as [L|[E|L]]; [|contradiction|].
  - rewrite iou_sym. exact (StronglySorted_lookup _ _ _ _ _ _ S L Hi Hj).
  - exact (StronglySorted_lookup _ _ _ _ _ _ S L Hj Hi).
Qed.

(** No two kept boxes overlap by more than the threshold. *)
Theorem dedupe_output_pairwise_below_threshold (xs : list Detection) (t : Q)
    (i j : nat) (a b : Detection) :
  i <> j ->
  deduplicate_boxes xs t !! i = Some a ->
  deduplicate_boxes xs t !! j = Some b ->
  (iou a b <= t)%Q.
Proof. apply kept_pair_below_threshold. Qed.

Lemma dedupe_output_pairwise_below_threshold_witness :
  (iou (mkDetection 0 0 10 10 0) (mkDetection 0 4 10 14 0) <= 6 # 10)%Q.
Proof.
  apply (dedupe_output_pairwise_below_threshold
    [mkDetection 0 0 10 10 0; mkDetection 0 2 10 12 0; mkDetection 0 4 10 14 0]
    (6 # 10) 0 1); [lia | reflexivity | reflexivity].
Defined.

Lemma dedupe_step_keeps t final box k :
  k ∈ final -> k ∈ dedupe_step t final box.
Proof.
  intros H. unfold dedupe_step. destruct (suppressed _ _ _); [exact H|].
  apply elem_of_app. left. exact H.
Qed.

(** Every input box is kept or overlaps a kept box by more than the
    threshold: nothing is dropped without a kept box that accounts for it. *)
Theorem dedupe_dropped_box_is_covered (xs : list Detection) (t : Q)
    (x : Detection) :
  x ∈ xs ->
  x ∈ deduplicate_boxes xs t \/
  exists k, k ∈ deduplicate_boxes xs t /\ (t < iou x k)%Q.
Proof.
  induction xs as [|y xs IH] using rev_ind; intros Hx.
  - inversion Hx.
  - rewrite deduplicate_boxes_snoc. apply elem_of_app in Hx.
    destruct Hx as [Hx|Hx].
    + destruct (IH Hx) as [H|(k & Hk & Hiou)].
      * left. apply dedupe_step_keeps, H.
      * right. exists k. split; [apply dedupe_step_keeps, Hk|exact Hiou].
    + apply list_elem_of_singleton in Hx. subst y. unfold dedupe_step.
      destruct (suppressed t (deduplicate_boxes xs t) x) eqn:E.
      * right. apply suppressed_true in E. exact E.
      * left. apply elem_of_app. right. apply list_elem_of_singleton. reflexivity.
Qed.

Lemma dedupe_dropped_box_is_covered_witness :
  mkDetection 15 15 115 115 1 ∈
    deduplicate_boxes
      [mkDetection 10 10 110 110 0; mkDetection 15 15 115 115 1] (6 # 10) \/
  exists k,
    k ∈ deduplicate_boxes
          [mkDetection 10 10 110 110 0; mkDetection 15 15 115 115 1] (6 # 10) /\
    (6 # 10 < iou (mkDetection 15 15 115 115 1) k)%Q.
Proof.
  apply (dedupe_dropped_box_is_covered
    [mkDetection 10 10 110 110 0; mkDetection 15 15 115 115 1] (6 # 10)).
  apply list_elem_of_further, list_elem_of_here.
Defined.

Lemma dedupe_fold_extends t ys acc :
  acc `prefix_of` fold_left (dedupe_step t) ys acc.
Proof.
  revert acc. induction ys as [|y ys IH]; intros acc; simpl.
  - reflexivity.
  - etransitivity; [|apply IH]. unfold dedupe_step.
    destruct (suppressed _ _ _); [reflexivity|]. apply prefix_app_r. reflexivity.
Qed.

(** Decisions are never revised: the output for a list is a prefix of the
    output for any extension of it, the output is a subsequence of the input,
    and the first input box is always the first output box. *)
Theorem dedupe_is_online (xs ys : list Detection) (t : Q) :
  deduplicate_boxes xs t `prefix_of` deduplicate_boxes (xs ++ ys) t /\
  deduplicate_boxes xs t `sublist_of` xs /\
  head (deduplicate_boxes xs t) = head xs.
Proof.
  split; [|split].
  - unfold deduplicate_boxes. rewrite fold_left_app. apply dedupe_fold_extends.
  - apply deduplicate_boxes_sublist.
  - destruct xs as [|x xs]; [reflexivity|].
    unfold deduplicate_boxes. simpl.
    destruct (dedupe_fold_extends t xs (dedupe_step t [] x)) as [l ->].
    reflexivity.
Qed.

(** ** Extreme thresholds and degenerate boxes *)

Lemma dedupe_fold_negative_threshold t ys k acc :
  (t < 0)%Q ->
  fold_left (dedupe_step t) ys (k :: acc) = k :: acc.
Proof.
  intros Ht. induction ys as [|y ys IH]; simpl; [reflexivity|].
  unfold dedupe_step at 2. unfold suppressed. simpl.
  assert (Qgtb (iou y k) t = true) as ->.
  { apply Qgtb_true. eapply Qlt_le_trans; [exact Ht|apply iou_nonneg]. }
  simpl. exact IH.
Qed.

(** With a threshold of 1 or more nothing is ever dropped; with a negative
    threshold only the first box is kept. *)
Theorem dedupe_extreme_thresholds (xs : list Detection) (t : Q) :
  ((1 <= t)%Q -> deduplicate_boxes xs t = xs) /\
  ((t < 0)%Q -> deduplicate_boxes xs t = take 1 xs).
Proof.
  split; intros Ht.
  - apply deduplicate_boxes_fixed.
    assert (forall l, StronglySorted (compatible t) l) as H.
    { induction l as [|x l IH]; constructor; [exact IH|].
      apply Forall_forall. intros y _. unfold compatible.
      eapply Qle_trans; [apply iou_le_1|exact Ht]. }
    apply H.
  - destruct xs as [|x xs]; [reflexivity|].
    unfold deduplicate_boxes. simpl. rewrite take_0.
    apply (dedupe_fold_negative_threshold t xs x [] Ht).
Qed.

Lemma dedupe_extreme_thresholds_witness :
  deduplicate_boxes
    [mkDetection 10 10 110 110 0; mkDetection 10 10 110 110 0] 1 =
    [mkDetection 10 10 110 110 0; mkDetection 10 10 110 110 0].
Proof.
  apply (proj1 (dedupe_extreme_thresholds
    [mkDetection 10 10 110 110 0; mkDetection 10 10 110 110 0] 1)).
  discriminate.
Defined.

(** A box of zero area is never dropped, under any non-negative threshold. *)
Theorem dedupe_keeps_zero_area_boxes (xs : list Detection) (t : Q)
    (a : Detection) :
  area (shapely_box a) = 0 -> (0 <= t)%Q -> a ∈ xs ->
  a ∈ deduplicate_boxes xs t.
Proof.
  intros Ha Ht. induction xs as [|y xs IH] using rev_ind; intros Hin.
  - inversion Hin.
  - rewrite deduplicate_boxes_snoc. apply elem_of_app in Hin.
    destruct Hin as [Hin|Hin]; [apply dedupe_step_keeps, IH, Hin|].
    apply list_elem_of_singleton in Hin. subst y. unfold dedupe_step.
    assert (suppressed t (deduplicate_boxes xs t) a = false) as ->.
    { apply suppressed_false, Forall_forall. intros k _. unfold compatible.
      eapply Qle_trans; [|exact Ht].
      rewrite (iou_zero_area a k Ha). apply Qle_refl. }
    apply elem_of_app. right. apply list_elem_of_singleton. reflexivity.
Qed.

Lemma dedupe_keeps_zero_area_boxes_witness :
  mkDetection 5 5 5 60 2 ∈
    deduplicate_boxes [mkDetection 0 0 50 50 1; mkDetection 5 5 5 60 2] (6 # 10).
Proof.
  apply (dedupe_keeps_zero_area_boxes
    [mkDetection 0 0 50 50 1; mkDetection 5 5 5 60 2] (6 # 10)
    (mkDetection 5 5 5 60 2) eq_refl); [discriminate|].
  apply list_elem_of_further, list_elem_of_here.
Defined.

(** ** Values of IoU *)

Lemma intersection_area_self r : intersection_area r r = area r.
Proof. unfold intersection_area, area, overlap, hi, lo. f_equal; lia. Qed.

Lemma iou_values (a b : Detection) :
  (0 <= iou a b <= 1)%Q /\
  iou a b = iou b a /\
  (0 < area (shapely_box a) -> (iou a a == 1)%Q) /\
  (separated a b -> (iou a b == 0)%Q).
Proof.
  split; [split; [apply iou_nonneg|apply iou_le_1]|].
  split; [apply iou_sym|]. split.
  - intros H. unfold iou. cbv zeta. unfold union_area.
    rewrite intersection_area_self.
    replace (area (shapely_box a) + area (shapely_box a) - area (shapely_box a))
      with (area (shapely_box a)) by lia.
    rewrite (proj2 (Z.ltb_lt _ _) H).
    unfold Qeq. simpl. rewrite Z2Pos.id by exact H. lia.
  - intros H.
    assert (intersection_area (shapely_box a) (shapely_box b) = 0) as E.
    { unfold intersection_area, overlap, shapely_box. simpl.
      unfold separated in H.
      destruct H as [H|[H|[H|H]]].
      - rewrite (Z.max_l 0) by lia. reflexivity.
      - rewrite (Z.max_l 0) by lia. reflexivity.
      - rewrite (Z.max_l 0 (_ (hi (y1 a) _) _ - _)) by lia. lia.
      - rewrite (Z.max_l 0 (_ (hi (y1 a) _) _ - _)) by lia. lia. }
    unfold iou. cbv zeta. rewrite E. destruct (0 <? _); reflexivity.
Qed.

(** IoU lies between 0 and 1, does not depend on the order of its arguments,
    is 1 for a box of positive area against itself, and is 0 for boxes that
    lie apart along an axis. *)
Theorem iou_range_and_symmetry (a b : Detection) :
  (0 <= iou a b <= 1)%Q /\
  iou a b = iou b a /\
  (0 < area (shapely_box a) -> (iou a a == 1)%Q) /\
  (separated a b -> (iou a b == 0)%Q).
Proof. apply iou_values. Qed.

Lemma iou_range_and_symmetry_witness :
  (iou (mkDetection 0 0 50 50 1) (mkDetection 200 200 250 250 1) == 0)%Q.
Proof.
  apply (proj2 (proj2 (proj2 (iou_range_and_symmetry
    (mkDetection 0 0 50 50 1) (mkDetection 200 200 250 250 1))))).
  left. vm_compute. discriminate.
Defined.

(** Below threshold 1, the output never holds two boxes with the same
    coordinates and a positive area, whatever their classes. *)
Theorem dedupe_output_has_no_repeated_box (xs : list Detection) (t : Q)
    (i j : nat) (a b : Detection) :
  (t < 1)%Q -> i <> j ->
  deduplicate_boxes xs t !! i = Some a ->
  deduplicate_boxes xs t !! j = Some b ->
  shapely_box a = shapely_box b ->
  area (shapely_box a) = 0.
Proof.
  intros Ht Hij Hi Hj Hab.
  pose proof (area_nonneg (shapely_box a)) as Hn.
  destruct (Z.eq_dec (area (shapely_box a)) 0) as [E|E]; [exact E|exfalso].
  assert (iou a b <= t)%Q as Hle
    by exact (kept_pair_below_threshold xs t i j a b Hij Hi Hj).
  rewrite <- (iou_same_box a a a b eq_refl Hab) in Hle.
  assert (iou a a == 1)%Q as E1.
  { apply (proj1 (proj2 (proj2 (iou_values a a)))). lia. }
  rewrite E1 in Hle. exact (Qlt_not_le _ _ Ht Hle).
Qed.

Lemma dedupe_output_has_no_repeated_box_witness :
  area (shapely_box (mkDetection 5 5 5 60 1)) = 0.
Proof.
  apply (dedupe_output_has_no_repeated_box
    [mkDetection 5 5 5 60 1; mkDetection 5 5 5 60 2] (6 # 10) 0 1
    (mkDetection 5 5 5 60 1) (mkDetection 5 5 5 60 2));
    [reflexivity | lia | reflexivity | reflexivity | reflexivity].
Defined.

(** Boxes that lie apart from each other are all kept, in their order, under
    any non-negative threshold. *)
Theorem dedupe_keeps_separated_boxes (xs : list Detection) (t : Q) :
  (0 <= t)%Q ->
  (forall (i j : nat) a b, (i < j)%nat -> xs !! i = Some a -> xs !! j = Some b ->
     separated a b) ->
  deduplicate_boxes xs t = xs.
Proof.
  intros Ht H. apply deduplicate_boxes_fixed, pairwise_compatible.
  intros i j a b Hij Hi Hj.
  eapply Qle_trans; [|exact Ht].
  rewrite (proj2 (proj2 (proj2 (iou_values a b))) (H i j a b Hij Hi Hj)).
  apply Qle_refl.
Qed.

Lemma dedupe_keeps_separated_boxes_witness :
  deduplicate_boxes
    [mkDetection 0 0 50 50 1; mkDetection 50 0 90 50 1] 0 =
    [mkDetection 0 0 50 50 1; mkDetection 50 0 90 50 1].
Proof.
  apply (dedupe_keeps_separated_boxes
    [mkDetection 0 0 50 50 1; mkDetection 50 0 90 50 1] 0); [discriminate|].
  intros i j a b Hij Hi Hj.
  destruct i as [|[|i]]; destruct j as [|[|j]]; simpl in Hi, Hj;
    try discriminate; try lia.
  injection Hi as <-. injection Hj as <-. left. vm_compute. discriminate.
Defined.

(** ** Moving all boxes together *)

Lemma overlap_translate a1 a2 b1 b2 d :
  overlap (a1 + d) (a2 + d) (b1 + d) (b2 + d) = overlap a1 a2 b1 b2.
Proof. unfold overlap, hi, lo. lia. Qed.

Lemma iou_translate dx dy a b :
  iou (translate dx dy a) (translate dx dy b) = iou a b.
Proof.
  assert (forall c, area (shapely_box (translate dx dy c)) = area (shapely_box c))
    as A.
  { intros c. unfold area, hi, lo, translate, shapely_box. simpl. f_equal; lia. }
  assert (intersection_area (shapely_box (translate dx dy a))
            (shapely_box (translate dx dy b)) =
          intersection_area (shapely_box a) (shapely_box b)) as I.
  { unfold intersection_area, translate, shapely_box. simpl.
    rewrite !overlap_translate. reflexivity. }
  unfold iou. cbv zeta. unfold union_area. rewrite I, !A. reflexivity.
Qed.

Lemma dedupe_commutes (f : Detection -> Detection) :
  (forall a b, iou (f a) (f b) = iou a b) ->
  forall xs t, deduplicate_boxes (f <$> xs) t = f <$> deduplicate_boxes xs t.
Proof.
  intros Hf xs t. induction xs as [|x xs IH] using rev_ind.
  - reflexivity.
  - rewrite fmap_app. simpl. rewrite !deduplicate_boxes_snoc, IH.
    unfold dedupe_step.
    assert (suppressed t (f <$> deduplicate_boxes xs t) (f x) =
            suppressed t (deduplicate_boxes xs t) x) as ->.
    { generalize (deduplicate_boxes xs t). intros l.
      induction l as [|k l IHl]; [reflexivity|].
      rewrite fmap_cons. unfold suppressed in *. cbn [existsb].
      rewrite Hf, IHl. reflexivity. }
    destruct (suppressed _ _ _); [reflexivity|].
    rewrite fmap_app. reflexivity.
Qed.

(** De-duplication does not depend on where the origin is: moving every box
    by the same offset moves the output by that offset and keeps the same
    boxes; in particular it gives the same result in padded canvas
    coordinates as in the coordinates without the padding. *)
Theorem dedupe_translation_invariant (dx dy : Z) (xs : list Detection) (t : Q) :
  deduplicate_boxes (translate dx dy <$> xs) t =
    translate dx dy <$> deduplicate_boxes xs t /\
  forall a b, iou (translate dx dy a) (translate dx dy b) = iou a b.
Proof.
  split; [|apply iou_translate].
  apply dedupe_commutes. apply iou_translate.
Qed.

(** ** The resize variants against each other *)

Lemma quotient_pos (t m : Z) :
  0 < t -> 0 < m -> (0 < inject_Z t / inject_Z m)%Q.
Proof.
  intros Ht Hm. apply Qlt_shift_div_l.
  - change 0%Q with (inject_Z 0). rewrite <- Zlt_Qlt. exact Hm.
  - rewrite Qmult_0_l. change 0%Q with (inject_Z 0). rewrite <- Zlt_Qlt. exact Ht.
Qed.

Lemma ResizeCell_bounds (h w t h' w' : Z) (s : Q) :
  0 < h -> 0 < w -> 0 < t ->
  ResizeCell.resize_bicubic_max_side (h, w) t = Some ((h', w'), s) ->
  0 < h' <= h /\ 0 < w' <= w /\ h' <= t /\ w' <= t /\ (0 < s <= 1)%Q.
Proof.
  intros Hh Hw Ht. unfold ResizeCell.resize_bicubic_max_side.
  destruct (t <? Z.max h w) eqn:E.
  - apply Z.ltb_lt in E.
    destruct (Z.max h w =? 0); [discriminate|].
    destruct (cv2_resize _) as [shape|] eqn:R; [|discriminate].
    intros [= -> <-]. apply cv2_resize_Some in R.
    unfold new_size in R. simpl in R. rewrite !int_of_scaled in R by lia.
    destruct R as (Pw & Ph & [= -> ->]).
    assert (h * t / Z.max h w <= h) by (apply Z.div_le_upper_bound; nia).
    assert (w * t / Z.max h w <= w) by (apply Z.div_le_upper_bound; nia).
    assert (h * t / Z.max h w <= t) by (apply Z.div_le_upper_bound; nia).
    assert (w * t / Z.max h w <= t) by (apply Z.div_le_upper_bound; nia).
    repeat split; try lia.
    + apply quotient_pos; lia.
    + apply guarded_scale_le_1; lia.
  - apply Z.ltb_ge in E. intros [= <- <- <-].
    repeat split; try lia; discriminate.
Qed.

(** What the guarded Colab variant returns is never larger than the input,
    fits in a square of side [target_size], has positive sides, and comes
    with a scale in (0, 1]. *)
Theorem ResizeCell_result_fits (h w t h' w' : Z) (s : Q) :
  0 < h -> 0 < w -> 0 < t ->
  ResizeCell.resize_bicubic_max_side (h, w) t = Some ((h', w'), s) ->
  0 < h' <= h /\ 0 < w' <= w /\ h' <= t /\ w' <= t /\ (0 < s <= 1)%Q.
Proof. apply ResizeCell_bounds. Qed.

Lemma ResizeCell_result_fits_witness :
  0 < 1200 <= 1440 /\ 0 < 1600 <= 1920 /\ 1200 <= 1600 /\ 1600 <= 1600 /\
  (0 < inject_Z 1600 / inject_Z 1920 <= 1)%Q.
Proof.
  apply (ResizeCell_result_fits 1440 1920 1600 1200 1600
           (inject_Z 1600 / inject_Z 1920)); [lia | lia | lia |].
  vm_compute. reflexivity.
Defined.

(** Resizing is idempotent in the guarded Colab variant: what it returns is
    returned unchanged, with scale 1, by a second call with the same target. *)
Theorem ResizeCell_idempotent (h w t h' w' : Z) (s : Q) :
  0 < h -> 0 < w -> 0 < t ->
  ResizeCell.resize_bicubic_max_side (h, w) t = Some ((h', w'), s) ->
  ResizeCell.resize_bicubic_max_side (h', w') t = Some ((h', w'), 1%Q).
Proof.
  intros Hh Hw Ht H.
  destruct (ResizeCell_bounds h w t h' w' s Hh Hw Ht H) as (_ & _ & Bh & Bw & _).
  unfold ResizeCell.resize_bicubic_max_side.
  rewrite (proj2 (Z.ltb_ge t (Z.max h' w'))) by lia. reflexivity.
Qed.

Lemma ResizeCell_idempotent_witness :
  ResizeCell.resize_bicubic_max_side (1200, 1600) 1600 =
    Some ((1200, 1600), 1%Q).
Proof.
  apply (ResizeCell_idempotent 1440 1920 1600 1200 1600
           (inject_Z 1600 / inject_Z 1920)); [lia | lia | lia |].
  vm_compute. reflexivity.
Defined.

(** The three variants agree where their guards agree.  On an image larger
    than the target the two Colab definitions return the same thing; and in
    all cases the guarded Colab definition returns the scale and the size the
    Xcode pipeline computes, or raises when one side of that size is 0. *)
Theorem resize_variants_agree (h w t : Z) :
  0 < h -> 0 < w -> 0 < t ->
  (t < Z.max h w ->
     InferenceCell.resize_bicubic_max_side (h, w) t =
     ResizeCell.resize_bicubic_max_side (h, w) t) /\
  exists g, Swift.geometry w h t = Some g /\
    ResizeCell.resize_bicubic_max_side (h, w) t =
      if (0 <? Swift.newWidth g) && (0 <? Swift.newHeight g)
      then Some ((Swift.newHeight g, Swift.newWidth g), Swift.scale g)
      else None.
Proof.
  intros Hh Hw Ht.
  assert ((Z.max h w =? 0) = false) as E0 by (apply Z.eqb_neq; lia).
  split.
  - intros Hlt. unfold InferenceCell.resize_bicubic_max_side,
      ResizeCell.resize_bicubic_max_side.
    rewrite (proj2 (Z.ltb_lt _ _) Hlt), E0. reflexivity.
  - unfold Swift.geometry, ResizeCell.resize_bicubic_max_side.
    rewrite (Z.max_comm w h), E0.
    destruct (Qgtb _ _) eqn:E.
    + apply Qgtb_true in E. rewrite <- Zlt_Qlt in E.
      rewrite (proj2 (Z.ltb_lt _ _) E).
      eexists. split; [reflexivity|]. simpl. unfold new_size, cv2_resize.
      destruct (_ && _); reflexivity.
    + apply Qgtb_false in E. rewrite <- Zle_Qle in E.
      rewrite (proj2 (Z.ltb_ge _ _) E).
      eexists. split; [reflexivity|]. simpl. rewrite !int_of_unscaled.
      rewrite (proj2 (Z.ltb_lt 0 w) Hw), (proj2 (Z.ltb_lt 0 h) Hh).
      reflexivity.
Qed.

Lemma resize_variants_agree_witness :
  InferenceCell.resize_bicubic_max_side (1440, 1920) 1600 =
  ResizeCell.resize_bicubic_max_side (1440, 1920) 1600.
Proof.
  apply (proj1 (resize_variants_agree 1440 1920 1600
    ltac:(lia) ltac:(lia) ltac:(lia))).
  reflexivity.
Defined.

(** ** What the letterboxing function hands back on every path *)

(** For a positive target and a bitmap of positive size, if any, the function
    always returns; the scale is in (0, 1] and the offsets are not negative,
    also when no bitmap or no pixel buffer could be obtained; a pixel buffer
    comes only with a square image of side [targetSize], and without a bitmap
    the receiver is handed back. *)
Theorem Swift_metadata_valid_on_all_paths (cgImage : option (Z * Z))
    (self_size : Z * Z) (t : Z) (buffer_created : bool) :
  0 < t ->
  (forall w h, cgImage = Some (w, h) -> 0 < w /\ 0 < h) ->
  exists m,
    Swift.resizedDownwardLetterboxedWithMetadata cgImage self_size t
      buffer_created = Some m /\
    (0 < Swift.m_scale m <= 1)%Q /\
    (0 <= Swift.m_xOffset m)%Q /\ (0 <= Swift.m_yOffset m)%Q /\
    (Swift.pixelBuffer m = true ->
       buffer_created = true /\ is_Some cgImage /\ Swift.image_size m = (t, t)) /\
    (cgImage = None ->
       Swift.pixelBuffer m = false /\ Swift.image_size m = self_size).
Proof.
  intros Ht Hpos. destruct cgImage as [[w h]|].
  - destruct (Hpos w h eq_refl) as [Hw Hh].
    destruct (Swift_geometry_scale w h t Hw Hh) as (g & Hg & Hs & Hle).
    destruct (Swift_resized_fits w h t g Hw Hh Ht Hg) as [[_ Hx] [_ Hy]].
    unfold Swift.resizedDownwardLetterboxedWithMetadata. rewrite Hg.
    eexists. split; [reflexivity|]. simpl.
    assert (Swift.xOffset g = ((inject_Z t - inject_Z (Swift.newWidth g)) / 2)%Q /\
            Swift.yOffset g = ((inject_Z t - inject_Z (Swift.newHeight g)) / 2)%Q)
      as [Ex Ey].
    { revert Hg. unfold Swift.geometry.
      destruct (Qgtb _ _); [destruct (Z.max w h =? 0); [discriminate|]|];
        intros [= <-]; split; reflexivity. }
    split; [split; [|exact Hle]|].
    + rewrite Hs. destruct (t <? Z.max w h); [apply quotient_pos; lia|reflexivity].
    + rewrite Ex, Ey.
      split; [apply (centred_offset t _ Hx)|].
      split; [apply (centred_offset t _ Hy)|].
      split; [intros ->; repeat split; eexists; reflexivity|discriminate].
  - eexists. split; [reflexivity|]. simpl.
    split; [split; [reflexivity|discriminate]|].
    split; [discriminate|]. split; [discriminate|].
    split; [discriminate|]. intros _. split; reflexivity.
Qed.

Lemma Swift_metadata_valid_on_all_paths_witness :
  exists m,
    Swift.resizedDownwardLetterboxedWithMetadata (Some (1920, 1440))
      (1920, 1440) 1600 false = Some m /\
    (0 < Swift.m_scale m <= 1)%Q.
Proof.
  destruct (Swift_metadata_valid_on_all_paths (Some (1920, 1440)) (1920, 1440)
              1600 false ltac:(lia)
              ltac:(intros w h [= <- <-]; lia))
    as (m & Hm & Hs & _).
  exists m. split; assumption.
Defined.

(** ** Colours and drawing in place *)

Lemma color_of_in_palette (c : Z) : color_of c ∈ colors.
Proof.
  unfold color_of. apply list_elem_of_In, nth_In.
  pose proof (Z.mod_pos_bound c (Z.of_nat (length colors)) ltac:(reflexivity)).
  lia.
Qed.

(** The colour lookup is safe for every class number, negative ones
    included: it always yields a colour of the palette, it is periodic with
    the size of the palette, and the classes 0 to 8 get the palette entries
    in order. *)
Theorem color_of_always_in_palette (c : Z) :
  color_of c ∈ colors /\
  color_of (c + 9) = color_of c /\
  (0 <= c < 9 -> colors !! Z.to_nat c = Some (color_of c)).
Proof.
  assert (Z.of_nat (length colors) = 9) as L by reflexivity.
  unfold color_of. rewrite L.
  pose proof (Z.mod_pos_bound c 9 ltac:(lia)) as B.
  split; [|split].
  - apply list_elem_of_In, nth_In.
    change (length colors) with 9%nat. lia.
  - replace (c + 9) with (c + 1 * 9) by lia. rewrite Z_mod_plus_full. reflexivity.
  - intros Hc. rewrite Z.mod_small by lia.
    destruct (nth_lookup_or_length colors (Z.to_nat c) (0, 0, 0)) as [E|E];
      [exact E|]. change (length colors) with 9%nat in E. lia.
Qed.

Lemma color_of_always_in_palette_witness :
  colors !! Z.to_nat 4 = Some (color_of 4).
Proof.
  apply (proj2 (proj2 (color_of_always_in_palette 4))). lia.
Defined.

Lemma Forall2_imap_r {A B} (P : A -> B -> Prop) (f : nat -> A -> B) (l : list A) :
  (forall i x, P x (f i x)) -> Forall2 P l (imap f l).
Proof.
  revert f. induction l as [|x l IH]; intros f H.
  - constructor.
  - rewrite imap_cons. constructor; [apply H|]. apply IH. intros i y. apply H.
Qed.

Lemma cv2_rectangle_painted px pt1 pt2 color thickness :
  painted_from (fun c => c = color) px (cv2_rectangle px pt1 pt2 color thickness).
Proof.
  unfold painted_from, cv2_rectangle. apply Forall2_imap_r. intros y row.
  apply Forall2_imap_r. intros x c. destruct (on_outline _ _ _ _ _); auto.
Qed.

Lemma painted_from_refl P px : painted_from P px px.
Proof.
  unfold painted_from. apply Forall_Forall2_diag, Forall_forall. intros row _.
  apply Forall_Forall2_diag, Forall_forall. intros c _. left. reflexivity.
Qed.

Lemma painted_from_step (P Q' : Color -> Prop) px px' px'' :
  (forall c, Q' c -> P c) ->
  painted_from P px px' -> painted_from Q' px' px'' -> painted_from P px px''.
Proof.
  intros HQ. unfold painted_from. intros H1 H2.
  revert px'' H2. induction H1 as [|r r' l l' Hr _ IH]; intros px'' H2.
  - inversion H2. constructor.
  - inversion H2 as [|? r'' ? l'' Hr' Hl']; subst. constructor; [|apply IH, Hl'].
    clear -HQ Hr Hr'. revert r'' Hr'.
    induction Hr as [|c c' r r' Hc _ IHr]; intros r'' Hr'.
    + inversion Hr'. constructor.
    + inversion Hr' as [|? c'' ? r''' Hc' Hr'']; subst.
      constructor; [|apply IHr, Hr''].
      destruct Hc' as [->|Hc']; [exact Hc|]. right. apply HQ, Hc'.
Qed.

Lemma draw_boxes_lookup (sigma : Store) (img : loc) (boxes : list Detection) px :
  sigma !! img = Some px ->
  exists px', Colab.draw_boxes sigma img boxes !! img = Some px' /\
    painted_from (fun c => c ∈ colors) px px'.
Proof.
  intros H. unfold Colab.draw_boxes.
  rewrite (fold_alter_same
             (fun d p => cv2_rectangle p (x1 d, y1 d) (x2 d, y2 d)
                           (color_of (cls d)) 2)), H.
  simpl. eexists. split; [reflexivity|].
  clear H. revert px. induction boxes as [|d boxes IH] using rev_ind; intros px.
  - apply painted_from_refl.
  - rewrite fold_left_app. simpl.
    eapply painted_from_step; [|apply IH|apply cv2_rectangle_painted].
    intros c ->. apply (color_of_in_palette (cls d)).
Qed.

Lemma draw_boxes_dom (sigma : Store) (img : loc) (boxes : list Detection) :
  dom (Colab.draw_boxes sigma img boxes) = dom sigma.
Proof.
  unfold Colab.draw_boxes. revert sigma.
  induction boxes as [|d boxes IH]; intros sigma; simpl; [reflexivity|].
  rewrite IH. apply dom_alter_L.
Qed.

(** The drawing step keeps the image as large as it was, changes pixels only
    into colours of the palette, and neither creates nor removes an image. *)
Theorem draw_boxes_keeps_shape_and_palette (sigma : Store) (img : loc)
    (boxes : list Detection) (px : Pixels) :
  sigma !! img = Some px ->
  (exists px', Colab.draw_boxes sigma img boxes !! img = Some px' /\
     painted_from (fun c => c ∈ colors) px px' /\
     length px' = length px /\ length <$> px' = length <$> px) /\
  dom (Colab.draw_boxes sigma img boxes) = dom sigma.
Proof.
  intros H. split; [|apply draw_boxes_dom].
  destruct (draw_boxes_lookup sigma img boxes px H) as (px' & E & P).
  exists px'. split; [exact E|]. split; [exact P|].
  split; [symmetry; apply (Forall2_length _ _ _ P)|].
  unfold painted_from in P. clear -P.
  induction P as [|r r' l l' Hr _ IH]; [reflexivity|].
  rewrite !fmap_cons, IH. f_equal. symmetry. apply (Forall2_length _ _ _ Hr).
Qed.

Lemma draw_boxes_keeps_shape_and_palette_witness :
  dom (Colab.draw_boxes {[ 1%positive := [[(0, 0, 0)]] ]} 1%positive
         [mkDetection 0 0 1 1 0]) =
  dom ({[ 1%positive := [[(0, 0, 0)]] ]} : Store).
Proof.
  assert (({[ 1%positive := [[(0, 0, 0)]] ]} : Store) !! 1%positive
          = Some [[(0, 0, 0)]]) as H by (vm_compute; reflexivity).
  apply (proj2 (draw_boxes_keeps_shape_and_palette _ 1%positive
           [mkDetection 0 0 1 1 0] _ H)).
Defined.

(** One pass of the loop on a loadable image always produces an output.  The
    image is a new object; what is written has the shape of the loaded image
    and differs from it only by pixels in palette colours; the images that
    existed before are untouched; and the copy given to the model still holds
    the loaded pixels. *)
Theorem process_image_writes_loaded_image (sigma : Store) (px : Pixels)
    (engine : Pixels -> list EngineBox) :
  exists img written s,
    Colab.process_image sigma (Some px) engine = Some (img, written, s) /\
    sigma !! img = None /\
    painted_from (fun c => c ∈ colors) px written /\
    s !! img = Some written /\
    (forall l, is_Some (sigma !! l) -> s !! l = sigma !! l) /\
    exists copy, copy <> img /\ sigma !! copy = None /\ s !! copy = Some px.
Proof.
  unfold Colab.process_image, alloc.
  set (img := fresh (dom sigma)).
  set (s1 := <[img := px]> sigma).
  set (copy := fresh (dom s1)).
  set (s2 := <[copy := px]> s1).
  assert (sigma !! img = None) as Fi by apply not_elem_of_dom, is_fresh.
  assert (s1 !! copy = None) as Fc by apply not_elem_of_dom, is_fresh.
  assert (copy <> img) as Hne.
  { intros E. rewrite E in Fc. unfold s1 in Fc. rewrite lookup_insert_eq in Fc.
    discriminate. }
  assert (s2 !! img = Some px) as Hi.
  { unfold s2, s1. rewrite lookup_insert_ne by exact Hne. apply lookup_insert_eq. }
  destruct (draw_boxes_lookup s2 img (Colab.all_boxes (engine px)) px Hi)
    as (written & E & P).
  exists img, written, (Colab.draw_boxes s2 img (Colab.all_boxes (engine px))).
  split; [rewrite E; reflexivity|]. split; [exact Fi|]. split; [exact P|].
  split; [exact E|]. split.
  - intros l [v Hl].
    assert (l <> img) by (intros ->; congruence).
    assert (l <> copy).
    { intros ->. unfold s1 in Fc. rewrite lookup_insert_ne in Fc by congruence.
      congruence. }
    unfold Colab.draw_boxes.
    rewrite (fold_alter_other
               (fun d p => cv2_rectangle p (x1 d, y1 d) (x2 d, y2 d)
                             (color_of (cls d)) 2)) by assumption.
    unfold s2, s1. rewrite !lookup_insert_ne by congruence. reflexivity.
  - exists copy. split; [exact Hne|]. split.
    + unfold s1 in Fc. rewrite lookup_insert_ne in Fc by congruence. exact Fc.
    + unfold Colab.draw_boxes.
      rewrite (fold_alter_other
                 (fun d p => cv2_rectangle p (x1 d, y1 d) (x2 d, y2 d)
                               (color_of (cls d)) 2)) by exact Hne.
      unfold s2. apply lookup_insert_eq.
Qed.

(** ** The model input wrapper *)

(** A feature value is provided exactly for the names the wrapper announces,
    and it is always the stored pixel buffer. *)
Theorem featureValue_matches_featureNames (self : YOLOInput.t) (name : string) :
  (is_Some (YOLOInput.featureValue self name) <->
   name ∈ YOLOInput.featureNames self) /\
  (forall v, YOLOInput.featureValue self name = Some v ->
     v = YOLOInput.image self).
Proof.
  unfold YOLOInput.featureValue, YOLOInput.featureNames.
  destruct (String.eqb_spec name "image") as [->|Hne]; split.
  - split; intros _; [apply elem_of_singleton; reflexivity|eexists; reflexivity].
  - intros v [= <-]. reflexivity.
  - split; [intros [v Hv]; discriminate|].
    intros H. apply elem_of_singleton in H. contradiction.
  - intros v Hv. discriminate.
Qed.

Lemma featureValue_matches_featureNames_witness :
  7%positive = YOLOInput.image (YOLOInput.mk 7).
Proof.
  apply (proj2 (featureValue_matches_featureNames (YOLOInput.mk 7) "image")
           7%positive eq_refl).
Defined.

(** ** The export script *)

#[local] Set Warnings "-clear-no-such-hyp".

(** The exit status of the export script is 1 exactly when the model file is
    missing or loading or exporting raised; an export that returns a falsy
    value is reported as failed but still ends with status 0.  Success is
    reported exactly when the file exists, loading returned and the export
    returned a truthy value, and then, NMS being switched off in the script,
    the notes on NMS are printed and the line on included NMS never is.  Every
    run reports one and only one of: not found, success, failure, error. *)
Theorem export_script_reports (env : ExportScript.Env) :
  let lines := fst (ExportScript.run env) in
  let status := snd (ExportScript.run env) in
  (status = 1 <->
   ExportScript.model_exists env = false \/
   (ExportScript.model_exists env = true /\
    (ExportScript.load_model env = ExportScript.Raises \/
     (ExportScript.load_model env <> ExportScript.Raises /\
      ExportScript.export_model env = ExportScript.Raises)))) /\
  (status = 0 \/ status = 1) /\
  (ExportScript.ExportFailed ∈ lines -> status = 0) /\
  (ExportScript.ExportSuccessful ∈ lines <->
   ExportScript.model_exists env = true /\
   ExportScript.load_model env <> ExportScript.Raises /\
   ExportScript.export_model env = ExportScript.Returns true) /\
  (ExportScript.NmsNotes ∈ lines <-> ExportScript.ExportSuccessful ∈ lines) /\
  (ExportScript.IncludingNms ∉ lines) /\
  length (List.filter ExportScript.is_report lines) = 1%nat.
Proof.
  destruct env as [[|] [|l] [|[|]]]; cbv zeta; unfold ExportScript.run;
    cbn [ExportScript.model_exists ExportScript.load_model
         ExportScript.export_model negb fst snd ExportScript.include_nms app];
    (split; [naive_solver|]); (split; [naive_solver|]);
    (split; [set_solver|]); (split; [set_solver|]);
    (split; [set_solver|]); (split; [set_solver|reflexivity]).
Qed.

(** A run whose export returns a falsy value: "Export failed!" is printed and
    the status is 0. *)
Lemma export_script_reports_witness :
  snd (ExportScript.run
         (ExportScript.mkEnv true (ExportScript.Returns true)
            (ExportScript.Returns false))) = 0.
Proof.
  apply (proj1 (proj2 (proj2 (export_script_reports
    (ExportScript.mkEnv true (ExportScript.Returns true)
       (ExportScript.Returns false)))))).
  vm_compute. repeat constructor.
Defined.

(** An image loaded earlier is still the same after a later pass. *)
Lemma process_image_writes_loaded_image_witness :
  exists img written s,
    Colab.process_image {[ 5%positive := [[(9, 9, 9)]] ]}
      (Some [[(0, 0, 0)]]) (fun _ => []) = Some (img, written, s) /\
    s !! 5%positive = Some [[(9, 9, 9)]].
Proof.
  destruct (process_image_writes_loaded_image
              {[ 5%positive := [[(9, 9, 9)]] ]} [[(0, 0, 0)]] (fun _ => []))
    as (img & written & s & E & _ & _ & _ & Hold & _).
  exists img, written, s. split; [exact E|].
  etransitivity;
    [apply Hold; vm_compute; eexists; reflexivity | vm_compute; reflexivity].
Defined.

